(** * django-saml-sp: the [sp.models] module

    A shallow embedding of [src/sp/models.py] (the [IdP] and [IdPAttribute]
    models and the methods of [IdP]) together with the properties of the
    methods that the specification states.

    Conventions of the embedding:
    - a Python [dict] read by key is a [gmap string pyval];
      [collections.OrderedDict] is an association list in insertion order;
    - a Python exception is a value of [exn], and a call that may raise
      returns a [result];
    - a method that assigns to [self] and calls [self.save()] runs in the
      monad [M], whose state is the in-memory instance and the stored rows;
    - the collaborators ([reverse], [django.conf.settings], [json], the SAML
      toolkit, [cryptography]) are type classes, and the time
      [timezone.now()] returns is an argument of the method that asks for
      it. *)

From Stdlib Require Import ZArith.
From stdpp Require Import base option list strings gmap fin_maps.

Local Open Scope string_scope.
Local Open Scope list_scope.

(** ** Exceptions and results *)

(** The exception classes that the module can meet.  [TypeError] and
    [IndexError] come from the subscript in [get_nameid], [AttributeError]
    from [settings_dict.update], [NoReverseMatch] is the class caught by
    [get_url], [IntegrityError] is what a [unique_together] violation raises.
    [LibraryError] stands for any other class raised inside a collaborator. *)
Inductive exn : Type :=
  | TypeError
  | IndexError
  | AttributeError
  | NoReverseMatch
  | IntegrityError
  | LibraryError (cls : string).

#[global] Instance exn_eq_dec : EqDecision exn.
Proof. solve_decision. Defined.

Inductive result (A : Type) : Type :=
  | Ok (a : A)
  | Raise (e : exn).
Arguments Ok {A} a.
Arguments Raise {A} e.

#[global] Instance result_ret : MRet result := fun A a => Ok a.
#[global] Instance result_bind : MBind result := fun A B f m =>
  match m with
  | Ok a => f a
  | Raise e => Raise e
  end.
#[global] Instance result_fmap : FMap result := fun A B f m =>
  match m with
  | Ok a => Ok (f a)
  | Raise e => Raise e
  end.

Definition is_ok {A} (m : result A) : bool :=
  match m with Ok _ => true | Raise _ => false end.

(** ** Python values *)

(** Timestamps ([datetime.datetime]) are microseconds since the epoch. *)
Definition datetime := Z.

Definition timedelta_days (d : Z) : Z := (d * 86400 * 1000000)%Z.

#[warnings="-register-all"] Inductive pyval : Type :=
  | PNone
  | PBool (b : bool)
  | PInt (n : Z)
  | PStr (s : string)
  | PList (l : list pyval)
  | PDict (d : gmap string pyval)
  | PDateTime (t : datetime).

(** Truth value of a string or [None], as used by [if s:] and [a or b]. *)
Definition str_truthy (s : string) : bool :=
  match s with "" => false | _ => true end.

Definition opt_truthy (o : option string) : bool :=
  match o with None => false | Some s => str_truthy s end.

(** [a or b] on values that are a string or [None]. *)
Definition py_or (a b : option string) : option string :=
  if opt_truthy a then a else b.

(** [v[k1][k2]...], with [None] where a key is missing or the value met on
    the way is not a dict. *)
Fixpoint get_path (p : list string) (v : pyval) : option pyval :=
  match p with
  | [] => Some v
  | k :: p' =>
      match v with
      | PDict d => match d !! k with Some v' => get_path p' v' | None => None end
      | _ => None
      end
  end.

(** [d.update(other)]: every key of [other] is set in [d]. *)
Definition dict_update (d other : gmap string pyval) : gmap string pyval :=
  other ∪ d.

(** ** The models *)

Record IdP : Type := mkIdP {
  pk : nat;
  name : string;
  url_params : pyval;
  base_url : string;
  entity_id : string;
  contact_name : string;
  contact_email : string;
  x509_certificate : string;
  private_key : string;
  certificate_expires : option datetime;
  metadata_url : string;
  verify_metadata_cert : bool;
  metadata_xml : string;
  saml_settings : string;
  last_import : option datetime;
  login_redirect : string;
  logout_redirect : string;
  require_attributes : bool;
  authn_comparison : string;
  authn_context : pyval
}.

Record IdPAttribute : Type := mkIdPAttribute {
  attr_id : nat;
  idp : nat;
  saml_attribute : string;
  mapped_name : string;
  is_nameid : bool;
  always_update : bool
}.

(** The parsed SAML response ([OneLogin_Saml2_Auth]) as far as the module
    uses it: [saml.get_attribute(name)] is a list of values or [None], and
    [saml.get_nameid()] is the NameID the toolkit computed (or [None]). *)
Module saml.
Record t : Type := mk {
  get_attribute : string → option (list string);
  get_nameid : option string
}.
End saml.

(** ** Collaborators *)

(** [django.urls.reverse(name, kwargs=...)]: the path, or an exception
    ([NoReverseMatch] when no pattern matches). *)
Class Urls : Type := {
  reverse : string → pyval → result string
}.

(** [django.conf.settings], the two attributes read by the module. *)
Class Settings : Type := {
  LOGIN_REDIRECT_URL : option string;
  LOGOUT_REDIRECT_URL : option string
}.

Class Json : Type := {
  json_loads : string → result pyval;
  json_dumps : pyval → result string
}.

(** [OneLogin_Saml2_IdPMetadataParser] and [bytes.decode("utf-8")]. *)
Class MetadataParser : Type := {
  get_metadata : string → bool → result string;
  decode_utf8 : string → result string;
  parse : string → result pyval
}.

(** What [x509.CertificateBuilder()] has accumulated when [sign] is called. *)
Record CertificateBuilder (Name PublicKey : Type) : Type := mkBuilder {
  subject_name : Name;
  issuer_name : Name;
  public_key_of : PublicKey;
  serial_number : Z;
  not_valid_before : datetime;
  not_valid_after : datetime;
  basic_constraints_ca : bool;
  basic_constraints_path_length : option nat;
  basic_constraints_critical : bool
}.
Arguments mkBuilder {Name PublicKey}.
Arguments subject_name {Name PublicKey}.
Arguments issuer_name {Name PublicKey}.
Arguments public_key_of {Name PublicKey}.
Arguments serial_number {Name PublicKey}.
Arguments not_valid_before {Name PublicKey}.
Arguments not_valid_after {Name PublicKey}.
Arguments basic_constraints_ca {Name PublicKey}.
Arguments basic_constraints_path_length {Name PublicKey}.
Arguments basic_constraints_critical {Name PublicKey}.

(** A signed certificate: the builder's fields and the signature. *)
Record Certificate (Name PublicKey : Type) : Type := mkCertificate {
  tbs : CertificateBuilder Name PublicKey;
  signature : string
}.
Arguments mkCertificate {Name PublicKey}.
Arguments tbs {Name PublicKey}.
Arguments signature {Name PublicKey}.

(** [urllib.parse.urlparse(url).netloc] and the calls into [cryptography]:
    [x509_name s] is [x509.Name([x509.NameAttribute(NameOID.COMMON_NAME, s)])],
    [private_bytes] and [public_bytes] are the PEM encodings decoded as
    ASCII, [sign] is the SHA-256 signature of the builder's content. *)
Class Crypto : Type := {
  PrivateKey : Type;
  PublicKey : Type;
  Name : Type;
  urlparse_netloc : string → result string;
  generate_private_key : Z → Z → result PrivateKey;
  private_bytes : PrivateKey → result string;
  public_key : PrivateKey → PublicKey;
  x509_name : string → result Name;
  random_serial_number : Z;
  sign : CertificateBuilder Name PublicKey → PrivateKey → result string;
  public_bytes : Certificate Name PublicKey → result string
}.

(** ** URL helpers of [IdP] *)

Section urls.
Context `{!Urls}.

Definition get_url (self : IdP) (name : string) (default : string)
  : result string :=
  match reverse name (url_params self) with
  | Ok path => Ok path
  | Raise NoReverseMatch => Ok default
  | Raise e => Raise e
  end.

Definition get_absolute_url (self : IdP) : result string :=
  get_url self "sp-idp-metadata" "/".

Definition get_entity_id (self : IdP) : result string :=
  if str_truthy (entity_id self) then Ok (entity_id self)
  else path ← get_absolute_url self; Ok (base_url self +:+ path).

Definition get_acs (self : IdP) : result string :=
  path ← get_url self "sp-idp-acs" "/"; Ok (base_url self +:+ path).

Definition get_slo (self : IdP) : result string :=
  path ← get_url self "sp-idp-slo" "/"; Ok (base_url self +:+ path).

Definition get_login_url (self : IdP) : result string :=
  get_url self "sp-idp-login" "/".

Definition get_test_url (self : IdP) : result string :=
  get_url self "sp-idp-test" "/".

Definition get_verify_url (self : IdP) : result string :=
  get_url self "sp-idp-verify" "/".

Definition get_logout_url (self : IdP) : result string :=
  get_url self "sp-idp-logout" "/".

(** ** [sp_settings] and [settings] *)

Definition opt_datetime (o : option datetime) : pyval :=
  match o with Some t => PDateTime t | None => PNone end.

Definition sp_settings (self : IdP) : result (gmap string pyval) :=
  entityId ← get_entity_id self;
  acs ← get_acs self;
  slo ← get_slo self;
  Ok (list_to_map [
    ("strict", PBool true);
    ("sp", PDict (list_to_map [
       ("NameIDFormat",
          PStr "urn:oasis:names:tc:SAML:1.1:nameid-format:unspecified");
       ("entityId", PStr entityId);
       ("assertionConsumerService", PDict (list_to_map [
          ("url", PStr acs);
          ("binding", PStr "urn:oasis:names:tc:SAML:2.0:bindings:HTTP-POST")
        ]));
       ("singleLogoutService", PDict (list_to_map [
          ("url", PStr slo);
          ("binding",
             PStr "urn:oasis:names:tc:SAML:2.0:bindings:HTTP-Redirect")
        ]));
       ("x509cert", PStr (x509_certificate self));
       ("privateKey", PStr (private_key self))
     ]));
    ("security", PDict (list_to_map [
       ("wantAttributeStatement", PBool (require_attributes self));
       ("metadataValidUntil", opt_datetime (certificate_expires self));
       ("requestedAuthnContextComparison", PStr (authn_comparison self));
       ("requestedAuthnContext", authn_context self)
     ]));
    ("contactPerson", PDict (list_to_map [
       ("technical", PDict (list_to_map [
          ("givenName", PStr (contact_name self));
          ("emailAddress", PStr (contact_email self))
        ]))
     ]))
  ]).

Context `{!Json}.

(** [settings_dict.update] is looked up before [self.sp_settings] is
    evaluated, so a blob that is not a JSON object fails first. *)
Definition settings (self : IdP) : result (gmap string pyval) :=
  settings_dict ← json_loads (saml_settings self);
  match settings_dict with
  | PDict d => overlay ← sp_settings self; Ok (dict_update d overlay)
  | _ => Raise AttributeError
  end.
End urls.

(** ** Redirects *)

Section redirects.
Context `{!Settings}.

Definition get_login_redirect (self : IdP) (redir : option string)
  : option string :=
  py_or (py_or redir (Some (login_redirect self))) LOGIN_REDIRECT_URL.

Definition get_logout_redirect (self : IdP) (redir : option string)
  : option string :=
  py_or (py_or redir (Some (logout_redirect self))) LOGOUT_REDIRECT_URL.
End redirects.


(** ** Attribute mappings *)

(** [collections.OrderedDict]: keys in insertion order; assigning to a key
    that is present replaces its value in place. *)
Definition OrderedDict (V : Type) : Type := list (string * V).

Fixpoint od_set {V} (d : OrderedDict V) (k : string) (v : V) : OrderedDict V :=
  match d with
  | [] => [(k, v)]
  | (k', v') :: d' =>
      if decide (k' = k) then (k', v) :: d' else (k', v') :: od_set d' k v
  end.

Fixpoint od_get {V} (d : OrderedDict V) (k : string) : option V :=
  match d with
  | [] => None
  | (k', v') :: d' => if decide (k' = k) then Some v' else od_get d' k
  end.

Definition od_keys {V} (d : OrderedDict V) : list string := d.*1.

(** The rows of the [IdPAttribute] table, in the order the database returns
    them. *)
Abbreviation attribute_table := (list IdPAttribute).

(** [self.attributes]: the related manager of the foreign key [idp]. *)
Definition attributes (self : IdP) (tbl : attribute_table) : list IdPAttribute :=
  filter (λ a, idp a = pk self) tbl.

(** [.exclude(mapped_name=v)] and [.filter(is_nameid=b)]. *)
Definition exclude_mapped_name (v : string) (qs : list IdPAttribute)
  : list IdPAttribute :=
  filter (λ a, mapped_name a ≠ v) qs.

Definition filter_is_nameid (b : bool) (qs : list IdPAttribute)
  : list IdPAttribute :=
  filter (λ a, is_nameid a = b) qs.

(** [.first()] on a queryset without ordering: the row with the smallest
    primary key, or [None]. *)
Fixpoint first (qs : list IdPAttribute) : option IdPAttribute :=
  match qs with
  | [] => None
  | a :: qs' =>
      match first qs' with
      | None => Some a
      | Some m => if bool_decide (attr_id a ≤ attr_id m)%nat then Some a else Some m
      end
  end.

(** The body of the [for] loop of [mapped_attributes]. *)
Definition mapped_attributes_step (s : saml.t)
    (attrs : OrderedDict (list string)) (attr : IdPAttribute)
  : OrderedDict (list string) :=
  match saml.get_attribute s (saml_attribute attr) with
  | Some value => od_set attrs (mapped_name attr) value
  | None => attrs
  end.

Definition mapped_attributes (self : IdP) (tbl : attribute_table) (s : saml.t)
  : OrderedDict (list string) :=
  foldl (mapped_attributes_step s) []
        (exclude_mapped_name "" (attributes self tbl)).

(** [v[0]] where [v] is a list or [None]. *)
Definition subscript0 (v : option (list string)) : result string :=
  match v with
  | None => Raise TypeError
  | Some [] => Raise IndexError
  | Some (x :: _) => Ok x
  end.

(** [self.attributes.filter(is_nameid=True).first()]. *)
Definition nameid_attr (self : IdP) (tbl : attribute_table)
  : option IdPAttribute :=
  first (filter_is_nameid true (attributes self tbl)).

Definition get_nameid (self : IdP) (tbl : attribute_table) (s : saml.t)
  : result (option string) :=
  match nameid_attr self tbl with
  | Some attr =>
      Some <$> subscript0 (saml.get_attribute s (saml_attribute attr))
  | None => Ok (saml.get_nameid s)
  end.

(** ** Creating and editing attribute mappings

    The only constraint [IdPAttribute.Meta] declares is
    [unique_together = [("idp", "saml_attribute")]]; the database refuses a
    write that would leave two rows with the same pair.  That refusal is
    what the operations below model.  The foreign key is not checked and a
    new row gets the largest present key plus one, so every write the
    database accepts is accepted here (possibly under another key), and the
    tables reachable here include every table the database can hold. *)

Definition collides (r r' : IdPAttribute) : Prop :=
  idp r' = idp r ∧ saml_attribute r' = saml_attribute r ∧ attr_id r' ≠ attr_id r.

#[global] Instance collides_dec r r' : Decision (collides r r').
Proof. unfold collides. apply _. Defined.

Definition violates_unique_together (tbl : attribute_table) (r : IdPAttribute)
  : bool :=
  bool_decide (Exists (collides r) tbl).

Definition fresh_id (tbl : attribute_table) : nat :=
  S (foldr Nat.max 0 (attr_id <$> tbl)).

Definition with_attr_id (i : nat) (r : IdPAttribute) : IdPAttribute :=
  mkIdPAttribute i (idp r) (saml_attribute r) (mapped_name r)
                 (is_nameid r) (always_update r).

(** [IdPAttribute.objects.create(...)]: INSERT with a new primary key. *)
Definition attr_create (tbl : attribute_table) (r : IdPAttribute)
  : result attribute_table :=
  let r' := with_attr_id (fresh_id tbl) r in
  if violates_unique_together tbl r' then Raise IntegrityError
  else Ok (tbl ++ [r']).

(** [attr.save()]: UPDATE by primary key, INSERT when no row has it. *)
Definition attr_save (tbl : attribute_table) (r : IdPAttribute)
  : result attribute_table :=
  if violates_unique_together tbl r then Raise IntegrityError
  else if bool_decide (attr_id r ∈ attr_id <$> tbl)
  then Ok ((λ r', if decide (attr_id r' = attr_id r) then r else r') <$> tbl)
  else Ok (tbl ++ [r]).

(** [attr.delete()]. *)
Definition attr_delete (tbl : attribute_table) (i : nat) : attribute_table :=
  filter (λ r', attr_id r' ≠ i) tbl.

Inductive attr_step : attribute_table → attribute_table → Prop :=
  | step_create tbl r tbl' :
      attr_create tbl r = Ok tbl' → attr_step tbl tbl'
  | step_save tbl r tbl' :
      attr_save tbl r = Ok tbl' → attr_step tbl tbl'
  | step_delete tbl i :
      attr_step tbl (attr_delete tbl i).

(** The tables that creating, editing and deleting mappings can produce,
    starting from the empty table. *)
Definition reachable (tbl : attribute_table) : Prop := rtc attr_step [] tbl.

Definition unique_together (tbl : attribute_table) : Prop :=
  ∀ r1 r2, r1 ∈ tbl → r2 ∈ tbl →
    idp r1 = idp r2 → saml_attribute r1 = saml_attribute r2 →
    attr_id r1 = attr_id r2.

(** What every write to the table keeps: primary keys are unique and the
    declared constraint holds. *)
Definition table_invariant (tbl : attribute_table) : Prop :=
  NoDup (attr_id <$> tbl) ∧ unique_together tbl.


(** ** Methods that assign to [self] and save

    The state is the instance the method runs on and the stored [IdP] rows.
    An exception stops the method and leaves the state as it is at that
    point: assignments already made to [self] stay, the rows change only in
    [save]. *)

Record world : Type := mkWorld {
  instance : IdP;
  stored : gmap nat IdP
}.

Definition M (A : Type) : Type := world → result A * world.

#[global] Instance M_ret : MRet M := fun A a w => (Ok a, w).
#[global] Instance M_bind : MBind M := fun A B f m w =>
  match m w with
  | (Ok a, w') => f a w'
  | (Raise e, w') => (Raise e, w')
  end.

(** A call that may raise and does not touch the state. *)
Definition call {A} (r : result A) : M A := fun w => (r, w).

Definition read_self : M IdP := fun w => (Ok (instance w), w).

Definition assign (f : IdP → IdP) : M unit :=
  fun w => (Ok tt, mkWorld (f (instance w)) (stored w)).

(** [self.save()]: the row with the primary key of [self] becomes [self]. *)
Definition save : M unit :=
  fun w => (Ok tt, mkWorld (instance w) (<[pk (instance w) := instance w]> (stored w))).

(** Unfolds the monad of a method down to the matches on its calls. *)
Ltac unfold_M :=
  unfold mbind, M_bind, mret, M_ret, read_self, call, assign, save; simpl.

Definition set_private_key (v : string) (i : IdP) : IdP :=
  mkIdP (pk i) (name i) (url_params i) (base_url i) (entity_id i)
        (contact_name i) (contact_email i) (x509_certificate i) v
        (certificate_expires i) (metadata_url i) (verify_metadata_cert i)
        (metadata_xml i) (saml_settings i) (last_import i) (login_redirect i)
        (logout_redirect i) (require_attributes i) (authn_comparison i)
        (authn_context i).

Definition set_certificate_expires (v : option datetime) (i : IdP) : IdP :=
  mkIdP (pk i) (name i) (url_params i) (base_url i) (entity_id i)
        (contact_name i) (contact_email i) (x509_certificate i) (private_key i)
        v (metadata_url i) (verify_metadata_cert i)
        (metadata_xml i) (saml_settings i) (last_import i) (login_redirect i)
        (logout_redirect i) (require_attributes i) (authn_comparison i)
        (authn_context i).

Definition set_x509_certificate (v : string) (i : IdP) : IdP :=
  mkIdP (pk i) (name i) (url_params i) (base_url i) (entity_id i)
        (contact_name i) (contact_email i) v (private_key i)
        (certificate_expires i) (metadata_url i) (verify_metadata_cert i)
        (metadata_xml i) (saml_settings i) (last_import i) (login_redirect i)
        (logout_redirect i) (require_attributes i) (authn_comparison i)
        (authn_context i).

Definition set_metadata_xml (v : string) (i : IdP) : IdP :=
  mkIdP (pk i) (name i) (url_params i) (base_url i) (entity_id i)
        (contact_name i) (contact_email i) (x509_certificate i) (private_key i)
        (certificate_expires i) (metadata_url i) (verify_metadata_cert i)
        v (saml_settings i) (last_import i) (login_redirect i)
        (logout_redirect i) (require_attributes i) (authn_comparison i)
        (authn_context i).

Definition set_saml_settings (v : string) (i : IdP) : IdP :=
  mkIdP (pk i) (name i) (url_params i) (base_url i) (entity_id i)
        (contact_name i) (contact_email i) (x509_certificate i) (private_key i)
        (certificate_expires i) (metadata_url i) (verify_metadata_cert i)
        (metadata_xml i) v (last_import i) (login_redirect i)
        (logout_redirect i) (require_attributes i) (authn_comparison i)
        (authn_context i).

Definition set_last_import (v : option datetime) (i : IdP) : IdP :=
  mkIdP (pk i) (name i) (url_params i) (base_url i) (entity_id i)
        (contact_name i) (contact_email i) (x509_certificate i) (private_key i)
        (certificate_expires i) (metadata_url i) (verify_metadata_cert i)
        (metadata_xml i) (saml_settings i) v (login_redirect i)
        (logout_redirect i) (require_attributes i) (authn_comparison i)
        (authn_context i).

Section import_metadata.
Context `{!Json} `{!MetadataParser}.

(** [now] is what [timezone.now()] returns when the method reaches it. *)
Definition import_metadata (now : datetime) : M unit :=
  self ← read_self;
  (if str_truthy (metadata_url self) then
     raw ← call (get_metadata (metadata_url self) (verify_metadata_cert self));
     xml ← call (decode_utf8 raw);
     assign (set_metadata_xml xml)
   else mret tt);;
  self ← read_self;
  parsed ← call (parse (metadata_xml self));
  dumped ← call (json_dumps parsed);
  assign (set_saml_settings dumped);;
  assign (set_last_import (Some now));;
  save.
End import_metadata.

Section generate_certificate.
Context `{!Crypto}.

(** [now] is what [timezone.now()] returns when the method reaches it.
    [not_valid_after] receives [self.certificate_expires], read back from
    the instance. *)
Definition generate_certificate (now : datetime) : M unit :=
  self ← read_self;
  netloc ← call (urlparse_netloc (base_url self));
  key ← call (generate_private_key 65537 2048);
  pem ← call (private_bytes key);
  assign (set_private_key pem);;
  name ← call (x509_name netloc);
  assign (set_certificate_expires (Some (now + timedelta_days 3650)%Z));;
  self ← read_self;
  expires ← call (match certificate_expires self with
                  | Some t => Ok t
                  | None => Raise TypeError
                  end);
  let builder :=
    mkBuilder name name (public_key key) random_serial_number
              now expires true (Some 0%nat) false in
  sig ← call (sign builder key);
  let cert := mkCertificate builder sig in
  cert_pem ← call (public_bytes cert);
  assign (set_x509_certificate cert_pem);;
  save.
End generate_certificate.

(** The URL names the module resolves. *)
Definition endpoint_names : list string :=
  ["sp-idp-acs"; "sp-idp-slo"; "sp-idp-metadata"; "sp-idp-login";
   "sp-idp-logout"; "sp-idp-test"; "sp-idp-verify"].

(** The keys of the dict [sp_settings] returns. *)
Definition overlay_keys : list string :=
  ["strict"; "sp"; "security"; "contactPerson"].

(** ** Sample data *)

Module Sample.

(** A URL configuration that knows the ACS, metadata and login views. *)
Definition urls : Urls := {|
  reverse name kwargs :=
    if decide (name = "sp-idp-acs") then Ok "/sso/acs/"
    else if decide (name = "sp-idp-metadata") then Ok "/sso/"
    else if decide (name = "sp-idp-login") then Ok "/sso/login/"
    else Raise NoReverseMatch
|}.

Definition django_settings : Settings := {|
  LOGIN_REDIRECT_URL := Some "/accounts/profile/";
  LOGOUT_REDIRECT_URL := None
|}.

Definition imported : gmap string pyval :=
  list_to_map [
    ("idp", PDict (list_to_map [("entityId", PStr "https://idp.example.org")]));
    ("sp", PDict (list_to_map [("x509cert", PStr "BOGUS");
                               ("extra", PStr "kept?")]))
  ].

Definition json : Json := {|
  json_loads s :=
    if decide (s = "blob") then Ok (PDict imported)
    else Raise (LibraryError "JSONDecodeError");
  json_dumps v := Ok "blob"
|}.

Definition acme : IdP := {|
  pk := 1;
  name := "Acme";
  url_params := PDict ∅;
  base_url := "https://sp.example.org";
  entity_id := "";
  contact_name := "Ops";
  contact_email := "ops@example.org";
  x509_certificate := "CERT-PEM";
  private_key := "KEY-PEM";
  certificate_expires := Some 1000%Z;
  metadata_url := "https://idp.example.org/metadata";
  verify_metadata_cert := true;
  metadata_xml := "<old/>";
  saml_settings := "blob";
  last_import := None;
  login_redirect := "/home/";
  logout_redirect := "";
  require_attributes := true;
  authn_comparison := "exact";
  authn_context := PList [PStr "urn:oasis:names:tc:SAML:2.0:ac:classes:PasswordProtectedTransport"]
|}.

(** Two mappings of [acme] are flagged as NameID source. *)
Definition uid_attr : IdPAttribute :=
  mkIdPAttribute 1 1 "uid" "username" true false.
Definition email_attr : IdPAttribute :=
  mkIdPAttribute 2 1 "email" "email" true false.
Definition mail_attr : IdPAttribute :=
  mkIdPAttribute 3 1 "mail" "email" false true.
Definition unmapped_attr : IdPAttribute :=
  mkIdPAttribute 4 1 "groups" "" false false.

Definition two_flagged : attribute_table := [uid_attr; email_attr].

Definition mappings : attribute_table :=
  [uid_attr; email_attr; mail_attr; unmapped_attr].

Definition only_email : attribute_table :=
  [mkIdPAttribute 1 1 "uid" "username" false false; email_attr].

Definition assertion : saml.t := {|
  saml.get_attribute a :=
    if decide (a = "email") then Some ["a@x.com"]
    else if decide (a = "uid") then Some ["u-17"]
    else if decide (a = "mail") then Some ["b@x.com"]
    else if decide (a = "groups") then Some ["staff"]
    else None;
  saml.get_nameid := Some "library-nameid"
|}.

Definition assertion_without_email : saml.t := {|
  saml.get_attribute a := if decide (a = "uid") then Some ["u-17"] else None;
  saml.get_nameid := Some "library-nameid"
|}.

(** A metadata source whose document does not parse, and one that cannot be
    fetched. *)
Definition unparsable : MetadataParser := {|
  get_metadata url validate_cert := Ok "<broken";
  decode_utf8 raw := Ok raw;
  parse xml := Raise (LibraryError "XMLSyntaxError")
|}.

Definition unreachable : MetadataParser := {|
  get_metadata url validate_cert := Raise (LibraryError "URLError");
  decode_utf8 raw := Ok raw;
  parse xml := Ok (PDict imported)
|}.

(** A toy [cryptography]: keys are numbers, signing may be made to fail. *)
Definition crypto (signing_works : bool) : Crypto := {|
  PrivateKey := Z;
  PublicKey := Z;
  Name := string;
  urlparse_netloc url := Ok "sp.example.org";
  generate_private_key e bits := Ok 42%Z;
  private_bytes key := Ok "NEW-KEY-PEM";
  public_key key := (key + 1)%Z;
  x509_name cn := Ok cn;
  random_serial_number := 7%Z;
  sign builder key :=
    if signing_works then Ok "SIG" else Raise (LibraryError "UnsupportedAlgorithm");
  public_bytes cert := Ok "NEW-CERT-PEM"
|}.

Definition before : world := mkWorld acme {[ 1 := acme ]}.

End Sample.

(** ** Federated identities: [IdPUser]

    [IdPUser.Meta] declares two constraints,
    [unique_together = [("idp", "nameid"), ("idp", "content_type", "user_id")]];
    the database refuses a write that would leave two rows agreeing on
    either tuple.  [content_type] is the primary key of the [ContentType]
    row.  As for attribute mappings, only that refusal is modelled: foreign
    keys are not checked and a new row gets the largest present key plus
    one. *)
Module users.

Record t : Type := mk {
  pk : nat;
  idp : nat;
  nameid : string;
  content_type : nat;
  user_id : string
}.

Definition collides_nameid (r r' : t) : Prop :=
  idp r' = idp r ∧ nameid r' = nameid r ∧ pk r' ≠ pk r.

Definition collides_user (r r' : t) : Prop :=
  idp r' = idp r ∧ content_type r' = content_type r ∧
  user_id r' = user_id r ∧ pk r' ≠ pk r.

#[global] Instance collides_nameid_dec r r' : Decision (collides_nameid r r').
Proof. unfold collides_nameid. apply _. Defined.

#[global] Instance collides_user_dec r r' : Decision (collides_user r r').
Proof. unfold collides_user. apply _. Defined.

Definition violates_unique_together (tbl : list t) (r : t) : bool :=
  bool_decide (Exists (collides_nameid r) tbl) ||
  bool_decide (Exists (collides_user r) tbl).

Definition fresh_pk (tbl : list t) : nat :=
  S (foldr Nat.max 0 (pk <$> tbl)).

Definition with_pk (i : nat) (r : t) : t :=
  mk i (idp r) (nameid r) (content_type r) (user_id r).

(** [IdPUser.objects.create(...)]. *)
Definition create (tbl : list t) (r : t) : result (list t) :=
  let r' := with_pk (fresh_pk tbl) r in
  if violates_unique_together tbl r' then Raise IntegrityError
  else Ok (tbl ++ [r']).

(** [user.save()]: UPDATE by primary key, INSERT when no row has it. *)
Definition save (tbl : list t) (r : t) : result (list t) :=
  if violates_unique_together tbl r then Raise IntegrityError
  else if bool_decide (pk r ∈ pk <$> tbl)
  then Ok ((λ r', if decide (pk r' = pk r) then r else r') <$> tbl)
  else Ok (tbl ++ [r]).

(** [user.delete()]. *)
Definition delete (tbl : list t) (i : nat) : list t :=
  filter (λ r', pk r' ≠ i) tbl.

Inductive step : list t → list t → Prop :=
  | step_create tbl r tbl' : create tbl r = Ok tbl' → step tbl tbl'
  | step_save tbl r tbl' : save tbl r = Ok tbl' → step tbl tbl'
  | step_delete tbl i : step tbl (delete tbl i).

Definition reachable (tbl : list t) : Prop := rtc step [] tbl.

(** Primary keys are unique and neither declared tuple repeats. *)
Definition invariant (tbl : list t) : Prop :=
  NoDup (pk <$> tbl) ∧
  (∀ r1 r2, r1 ∈ tbl → r2 ∈ tbl →
     idp r1 = idp r2 → nameid r1 = nameid r2 → pk r1 = pk r2) ∧
  (∀ r1 r2, r1 ∈ tbl → r2 ∈ tbl →
     idp r1 = idp r2 → content_type r1 = content_type r2 →
     user_id r1 = user_id r2 → pk r1 = pk r2).

End users.

(** ** Default values: [IdPUserDefaultValue] *)

Record IdPUserDefaultValue : Type := mkIdPUserDefaultValue {
  default_id : nat;
  default_idp : nat;
  field : string;
  value : string
}.

(** ** Deleting an IdP

    The three foreign keys to [IdP] are declared [on_delete=models.CASCADE]:
    deleting the IdP row deletes the rows that refer to it. *)

Record database : Type := mkDatabase {
  idp_rows : gmap nat IdP;
  attribute_rows : list IdPAttribute;
  default_rows : list IdPUserDefaultValue;
  user_rows : list users.t
}.

Definition idp_delete (i : nat) (db : database) : database :=
  mkDatabase (delete i (idp_rows db))
             (filter (λ a, idp a ≠ i) (attribute_rows db))
             (filter (λ d, default_idp d ≠ i) (default_rows db))
             (filter (λ u, users.idp u ≠ i) (user_rows db)).

(** No row of the dependent tables refers to a missing IdP. *)
Definition referential_integrity (db : database) : Prop :=
  (∀ a, a ∈ attribute_rows db → is_Some (idp_rows db !! idp a)) ∧
  (∀ d, d ∈ default_rows db → is_Some (idp_rows db !! default_idp d)) ∧
  (∀ u, u ∈ user_rows db → is_Some (idp_rows db !! users.idp u)).

(** ** Pluggable strategies

    The five columns of the [IdP] row that name a strategy, and the five
    settings that name the project-wide one.  A setting is [None] when
    [django.conf.settings] has no such attribute, and [Some v] when it has
    the value [v] (a dotted path or [None]). *)

Record IdPMethods : Type := mkIdPMethods {
  authenticate_method : string;
  login_method : string;
  logout_method : string;
  prepare_request_method : string;
  update_user_method : string
}.

Class SpSettings : Type := {
  SP_PREPARE_REQUEST : option (option string);
  SP_AUTHENTICATE : option (option string);
  SP_LOGIN : option (option string);
  SP_LOGOUT : option (option string);
  SP_UPDATE_USER : option (option string)
}.

(** [getattr(settings, name, default)]. *)
Definition getattr (attr : option (option string)) (default : string)
  : option string :=
  match attr with
  | Some v => v
  | None => Some default
  end.

(** [django.utils.module_loading.import_string] and the objects the
    strategies receive.  A strategy is called with its arguments in order
    ([created] is passed by keyword, here last); [idp_obj] and [saml_obj]
    are [self] and [saml] as arguments. *)
Class Loader : Type := {
  PyObj : Type;
  import_string : option string → result (list PyObj → result PyObj);
  idp_obj : IdP → IdPMethods → PyObj;
  saml_obj : saml.t → PyObj;
  created_obj : option bool → PyObj
}.

Section strategies.
Context `{!SpSettings} `{!Loader}.

Definition prepare_request (self : IdP) (m : IdPMethods) (request : PyObj)
  : result PyObj :=
  let method := py_or (Some (prepare_request_method m))
                      (getattr SP_PREPARE_REQUEST "sp.utils.prepare_request") in
  f ← import_string method; f [request; idp_obj self m].

Definition authenticate (self : IdP) (m : IdPMethods) (request : PyObj)
    (s : saml.t) : result PyObj :=
  let method := py_or (Some (authenticate_method m))
                      (getattr SP_AUTHENTICATE "sp.utils.authenticate") in
  f ← import_string method; f [request; idp_obj self m; saml_obj s].

Definition login (self : IdP) (m : IdPMethods) (request user : PyObj)
    (s : saml.t) : result PyObj :=
  let method := py_or (Some (login_method m))
                      (getattr SP_LOGIN "sp.utils.login") in
  f ← import_string method; f [request; user; idp_obj self m; saml_obj s].

Definition logout (self : IdP) (m : IdPMethods) (request : PyObj)
  : result PyObj :=
  let method := py_or (Some (logout_method m))
                      (getattr SP_LOGOUT "sp.utils.logout") in
  f ← import_string method; f [request; idp_obj self m].

Definition update_user (self : IdP) (m : IdPMethods) (request : PyObj)
    (s : saml.t) (user : PyObj) (created : option bool) : result PyObj :=
  let method := py_or (Some (update_user_method m))
                      (getattr SP_UPDATE_USER "sp.utils.update_user") in
  if opt_truthy method then
    f ← import_string method;
    f [request; idp_obj self m; saml_obj s; user; created_obj created]
  else Ok user.
End strategies.

(** ** Which columns a method leaves alone *)

(** [a] and [b] agree on every column but [private_key],
    [x509_certificate] and [certificate_expires]. *)
Definition same_except_certificate (a b : IdP) : Prop :=
  pk a = pk b ∧ name a = name b ∧ url_params a = url_params b ∧
  base_url a = base_url b ∧ entity_id a = entity_id b ∧
  contact_name a = contact_name b ∧ contact_email a = contact_email b ∧
  metadata_url a = metadata_url b ∧
  verify_metadata_cert a = verify_metadata_cert b ∧
  metadata_xml a = metadata_xml b ∧ saml_settings a = saml_settings b ∧
  last_import a = last_import b ∧ login_redirect a = login_redirect b ∧
  logout_redirect a = logout_redirect b ∧
  require_attributes a = require_attributes b ∧
  authn_comparison a = authn_comparison b ∧ authn_context a = authn_context b.

(** [a] and [b] agree on every column but [metadata_xml], [saml_settings]
    and [last_import]. *)
Definition same_except_metadata (a b : IdP) : Prop :=
  pk a = pk b ∧ name a = name b ∧ url_params a = url_params b ∧
  base_url a = base_url b ∧ entity_id a = entity_id b ∧
  contact_name a = contact_name b ∧ contact_email a = contact_email b ∧
  x509_certificate a = x509_certificate b ∧ private_key a = private_key b ∧
  certificate_expires a = certificate_expires b ∧
  metadata_url a = metadata_url b ∧
  verify_metadata_cert a = verify_metadata_cert b ∧
  login_redirect a = login_redirect b ∧
  logout_redirect a = logout_redirect b ∧
  require_attributes a = require_attributes b ∧
  authn_comparison a = authn_comparison b ∧ authn_context a = authn_context b.

(** ** More sample data *)

Module Fixtures.

(** Routing that resolves nothing. *)
Definition no_urls : Urls := {|
  reverse name kwargs := Raise NoReverseMatch
|}.

(** Routing that is misconfigured. *)
Definition broken_urls : Urls := {|
  reverse name kwargs := Raise (LibraryError "ImproperlyConfigured")
|}.

(** [json.loads] answers a list for ["list"], the dumped metadata for
    ["dumped"]. *)
Definition json : Json := {|
  json_loads s :=
    if decide (s = "list") then Ok (PList [])
    else if decide (s = "dumped") then Ok (PDict Sample.imported)
    else Raise (LibraryError "JSONDecodeError");
  json_dumps v := Ok "dumped"
|}.

Definition metadata : MetadataParser := {|
  get_metadata url validate_cert := Ok "<fetched/>";
  decode_utf8 raw := Ok raw;
  parse xml := Ok (PDict Sample.imported)
|}.

Definition explicit : IdP :=
  mkIdP 2 "Explicit" (PDict ∅) "https://sp.example.org" "urn:example:sp"
        "Ops" "ops@example.org" "" "" None "" true "<stored/>" "list" None
        "" "" false "exact" (PBool false).

Definition other_idp_attr : IdPAttribute :=
  mkIdPAttribute 9 2 "email" "email" true false.

Definition distinct_names : attribute_table :=
  [Sample.uid_attr; Sample.email_attr; Sample.unmapped_attr].

Definition alice : users.t := users.mk 1 1 "alice@idp" 4 "17".
Definition bob : users.t := users.mk 0 1 "bob@idp" 4 "18".

Definition db : database :=
  mkDatabase {[ 1 := Sample.acme; 2 := explicit ]}
             [Sample.uid_attr; other_idp_attr]
             [mkIdPUserDefaultValue 1 1 "is_staff" "false"]
             [alice].

Definition methods : IdPMethods :=
  mkIdPMethods "" "project.saml.login" "" "" "".

Definition sp_settings_none : SpSettings := {|
  SP_PREPARE_REQUEST := None;
  SP_AUTHENTICATE := Some (Some "project.saml.authenticate");
  SP_LOGIN := Some (Some "project.saml.other_login");
  SP_LOGOUT := None;
  SP_UPDATE_USER := Some None
|}.

(** Objects are strings; every dotted path loads a strategy that returns
    its own name. *)
Definition loader : Loader := {|
  PyObj := string;
  import_string method :=
    match method with
    | Some path => Ok (λ args, Ok path)
    | None => Raise AttributeError
    end;
  idp_obj self m := name self;
  saml_obj s := "saml";
  created_obj c := "created"
|}.

End Fixtures.

(** * Properties *)

(** ** Results *)

Lemma bind_Ok {A B} (f : A → result B) (m : result A) (b : B) :
  m ≫= f = Ok b ↔ ∃ a, m = Ok a ∧ f a = Ok b.
Proof.
  destruct m as [a|e]; simpl; split.
  - eauto.
  - by intros (a' & [= <-] & ?).
  - done.
  - by intros (? & ? & ?).
Qed.

(** ** URL resolution *)

Section url_properties.
Context `{!Urls}.

Lemma get_url_Ok self name default path :
  reverse name (url_params self) = Ok path →
  get_url self name default = Ok path.
Proof. unfold get_url. by intros ->. Qed.

Lemma get_url_NoReverseMatch self name default :
  reverse name (url_params self) = Raise NoReverseMatch →
  get_url self name default = Ok default.
Proof. unfold get_url. by intros ->. Qed.

Lemma get_url_inv self name default path :
  get_url self name default = Ok path →
  reverse name (url_params self) = Ok path ∨
  (reverse name (url_params self) = Raise NoReverseMatch ∧ path = default).
Proof.
  unfold get_url. destruct (reverse name (url_params self)) as [p|[]];
    intros [= <-]; auto.
Qed.

(** C9: for each of the seven named endpoints, [get_url] with the default
    ["/"] returns the path [reverse] resolves with the IdP's [url_params],
    and returns ["/"] instead of raising when [reverse] raises
    [NoReverseMatch]; the URL getters of [IdP] all resolve this way. *)
Theorem get_url_falls_back_to_root self name :
  name ∈ endpoint_names →
  (∀ path, reverse name (url_params self) = Ok path →
           get_url self name "/" = Ok path) ∧
  (reverse name (url_params self) = Raise NoReverseMatch →
   get_url self name "/" = Ok "/") ∧
  get_absolute_url self = get_url self "sp-idp-metadata" "/" ∧
  get_login_url self = get_url self "sp-idp-login" "/" ∧
  get_logout_url self = get_url self "sp-idp-logout" "/" ∧
  get_test_url self = get_url self "sp-idp-test" "/" ∧
  get_verify_url self = get_url self "sp-idp-verify" "/" ∧
  get_acs self = (λ path, base_url self +:+ path) <$> get_url self "sp-idp-acs" "/" ∧
  get_slo self = (λ path, base_url self +:+ path) <$> get_url self "sp-idp-slo" "/".
Proof.
  intros _. split; [|split].
  - intros path. apply get_url_Ok.
  - apply get_url_NoReverseMatch.
  - repeat split; unfold get_acs, get_slo;
      by destruct (get_url self _ "/").
Qed.

End url_properties.

Lemma get_url_falls_back_to_root_witness :
  @get_url Sample.urls Sample.acme "sp-idp-acs" "/" = Ok "/sso/acs/" ∧
  @get_url Sample.urls Sample.acme "sp-idp-slo" "/" = Ok "/".
Proof.
  assert (Hacs : "sp-idp-acs" ∈ endpoint_names) by (unfold endpoint_names; repeat constructor).
  assert (Hslo : "sp-idp-slo" ∈ endpoint_names) by (unfold endpoint_names; repeat constructor).
  destruct (@get_url_falls_back_to_root Sample.urls Sample.acme _ Hacs)
    as (Hok & _).
  destruct (@get_url_falls_back_to_root Sample.urls Sample.acme _ Hslo)
    as (_ & Hfail & _).
  split; [apply Hok | apply Hfail]; reflexivity.
Defined.

(** ** Truth values *)

Lemma str_truthy_true s : str_truthy s = true ↔ s ≠ "".
Proof. by destruct s. Qed.

Lemma str_truthy_false s : str_truthy s = false ↔ s = "".
Proof. by destruct s. Qed.

Lemma append_nonempty (s t : string) : t ≠ "" → s +:+ t ≠ "".
Proof. by destruct s. Qed.

Lemma py_or_truthy a b : opt_truthy a = true → py_or a b = a.
Proof. unfold py_or. by intros ->. Qed.

Lemma py_or_falsy a b : opt_truthy a = false → py_or a b = b.
Proof. unfold py_or. by intros ->. Qed.

(** ** Entity ID *)

Section entity_id_properties.
Context `{!Urls}.

(** What Django documents of [reverse]: the only exception it raises is
    [NoReverseMatch], and a reversed path starts with the script prefix,
    which ends in a slash. *)
Hypothesis reverse_raises : ∀ name kwargs e,
  reverse name kwargs = Raise e → e = NoReverseMatch.
Hypothesis reverse_nonempty : ∀ name kwargs path,
  reverse name kwargs = Ok path → path ≠ "".

Lemma get_url_total self name default :
  ∃ path, get_url self name default = Ok path.
Proof using reverse_raises.
  unfold get_url.
  destruct (reverse name (url_params self)) as [p|e] eqn:Hr; [by eauto|].
  apply reverse_raises in Hr as ->. eauto.
Qed.

Lemma get_url_nonempty self name path :
  get_url self name "/" = Ok path → path ≠ "".
Proof using reverse_nonempty.
  intros [Hr|[_ ->]]%get_url_inv; [by eapply reverse_nonempty | done].
Qed.

(** Under the contract of [reverse], [get_entity_id] returns, and what it
    returns is not empty. *)
Lemma get_entity_id_total_nonempty self :
  ∃ eid, get_entity_id self = Ok eid ∧ eid ≠ "" ∧
    (entity_id self ≠ "" → eid = entity_id self) ∧
    (entity_id self = "" →
       ∃ path, get_url self "sp-idp-metadata" "/" = Ok path ∧
               eid = base_url self +:+ path).
Proof using reverse_raises reverse_nonempty.
  unfold get_entity_id, get_absolute_url.
  destruct (str_truthy (entity_id self)) eqn:Ht.
  - apply str_truthy_true in Ht. exists (entity_id self). by repeat split.
  - apply str_truthy_false in Ht.
    destruct (get_url_total self "sp-idp-metadata" "/") as [path Hp].
    rewrite Hp. simpl. exists (base_url self +:+ path). repeat split.
    + apply append_nonempty. by eapply get_url_nonempty.
    + done.
    + eauto.
Qed.

End entity_id_properties.

Section entity_id_value.
Context `{!Urls}.

Lemma get_entity_id_explicit self :
  entity_id self ≠ "" → get_entity_id self = Ok (entity_id self).
Proof. intros Hset%str_truthy_true. unfold get_entity_id. by rewrite Hset. Qed.

Lemma get_entity_id_resolved self path :
  entity_id self = "" →
  reverse "sp-idp-metadata" (url_params self) = Ok path →
  get_entity_id self = Ok (base_url self +:+ path).
Proof.
  intros Hblank Hrev. unfold get_entity_id, get_absolute_url.
  rewrite Hblank. simpl. by rewrite (get_url_Ok _ _ _ _ Hrev).
Qed.

Lemma get_entity_id_unresolved self :
  entity_id self = "" →
  reverse "sp-idp-metadata" (url_params self) = Raise NoReverseMatch →
  get_entity_id self = Ok (base_url self +:+ "/").
Proof.
  intros Hblank Hrev. unfold get_entity_id, get_absolute_url.
  rewrite Hblank. simpl. by rewrite (get_url_NoReverseMatch _ _ _ Hrev).
Qed.

(** C6: [get_entity_id] returns the configured [entity_id] when that is
    not blank, without resolving anything.  When it is blank the result is
    [base_url] followed by the path [reverse] resolves for the metadata
    endpoint with the IdP's [url_params], and [base_url] followed by ["/"]
    when [reverse] raises [NoReverseMatch].  Under the contract of [reverse]
    (it raises nothing but [NoReverseMatch], and a resolved path is not
    empty) the method always returns, and the result is never empty. *)
Theorem get_entity_id_explicit_or_derived self :
  (entity_id self ≠ "" → get_entity_id self = Ok (entity_id self)) ∧
  (∀ path, entity_id self = "" →
     reverse "sp-idp-metadata" (url_params self) = Ok path →
     get_entity_id self = Ok (base_url self +:+ path)) ∧
  (entity_id self = "" →
   reverse "sp-idp-metadata" (url_params self) = Raise NoReverseMatch →
   get_entity_id self = Ok (base_url self +:+ "/")) ∧
  ((∀ name kwargs e, reverse name kwargs = Raise e → e = NoReverseMatch) →
   (∀ name kwargs path, reverse name kwargs = Ok path → path ≠ "") →
   ∃ eid, get_entity_id self = Ok eid ∧ eid ≠ "" ∧
     (entity_id self ≠ "" → eid = entity_id self) ∧
     (entity_id self = "" →
        ∃ path, get_url self "sp-idp-metadata" "/" = Ok path ∧
                eid = base_url self +:+ path)).
Proof.
  split; [apply get_entity_id_explicit|].
  split; [intros path; apply get_entity_id_resolved|].
  split; [apply get_entity_id_unresolved|].
  intros Hraises Hnonempty.
  exact (get_entity_id_total_nonempty Hraises Hnonempty self).
Qed.

End entity_id_value.

Lemma sample_reverse_raises name kwargs e :
  @reverse Sample.urls name kwargs = Raise e → e = NoReverseMatch.
Proof. simpl. repeat case_decide; congruence. Defined.

Lemma sample_reverse_nonempty name kwargs path :
  @reverse Sample.urls name kwargs = Ok path → path ≠ "".
Proof. simpl. repeat case_decide; intros [= <-]; done. Defined.

Lemma get_entity_id_explicit_or_derived_witness :
  @get_entity_id Sample.urls Sample.acme = Ok "https://sp.example.org/sso/" ∧
  @get_entity_id Fixtures.no_urls Sample.acme = Ok "https://sp.example.org/" ∧
  @get_entity_id Sample.urls Fixtures.explicit = Ok "urn:example:sp" ∧
  ∃ eid, @get_entity_id Sample.urls Sample.acme = Ok eid ∧ eid ≠ "".
Proof.
  destruct (@get_entity_id_explicit_or_derived Sample.urls Sample.acme)
    as (_ & Hresolved & _ & Hcontract).
  destruct (@get_entity_id_explicit_or_derived Fixtures.no_urls Sample.acme)
    as (_ & _ & Hunresolved & _).
  destruct (@get_entity_id_explicit_or_derived Sample.urls Fixtures.explicit)
    as (Hexplicit & _).
  split; [|split; [|split]].
  - apply (Hresolved "/sso/"); reflexivity.
  - apply Hunresolved; reflexivity.
  - apply Hexplicit. discriminate.
  - destruct (Hcontract sample_reverse_raises sample_reverse_nonempty)
      as (eid & Heid & Hne & _).
    exists eid. split; [exact Heid | exact Hne].
Defined.

(** ** Redirects *)

Section redirect_properties.
Context `{!Settings}.

(** C8: the redirect after login is the caller's [redir] when that is
    populated, else the IdP's [login_redirect] when that is populated, else
    [settings.LOGIN_REDIRECT_URL]; the redirect after logout is resolved the
    same way from [logout_redirect] and [settings.LOGOUT_REDIRECT_URL]. *)
Theorem redirect_precedence self :
  (∀ r, r ≠ "" → get_login_redirect self (Some r) = Some r) ∧
  (∀ redir, redir = None ∨ redir = Some "" → login_redirect self ≠ "" →
     get_login_redirect self redir = Some (login_redirect self)) ∧
  (∀ redir, redir = None ∨ redir = Some "" → login_redirect self = "" →
     get_login_redirect self redir = LOGIN_REDIRECT_URL) ∧
  (∀ r, r ≠ "" → get_logout_redirect self (Some r) = Some r) ∧
  (∀ redir, redir = None ∨ redir = Some "" → logout_redirect self ≠ "" →
     get_logout_redirect self redir = Some (logout_redirect self)) ∧
  (∀ redir, redir = None ∨ redir = Some "" → logout_redirect self = "" →
     get_logout_redirect self redir = LOGOUT_REDIRECT_URL).
Proof.
  unfold get_login_redirect, get_logout_redirect.
  repeat split.
  - intros r Hr%str_truthy_true.
    rewrite (py_or_truthy (Some r)) by done. by apply py_or_truthy.
  - intros redir Hredir Hl%str_truthy_true.
    rewrite (py_or_falsy redir); [|by destruct Hredir as [-> | ->]].
    by apply py_or_truthy.
  - intros redir Hredir Hl.
    rewrite (py_or_falsy redir); [|by destruct Hredir as [-> | ->]].
    rewrite py_or_falsy; [done | by rewrite Hl].
  - intros r Hr%str_truthy_true.
    rewrite (py_or_truthy (Some r)) by done. by apply py_or_truthy.
  - intros redir Hredir Hl%str_truthy_true.
    rewrite (py_or_falsy redir); [|by destruct Hredir as [-> | ->]].
    by apply py_or_truthy.
  - intros redir Hredir Hl.
    rewrite (py_or_falsy redir); [|by destruct Hredir as [-> | ->]].
    rewrite py_or_falsy; [done | by rewrite Hl].
Qed.

End redirect_properties.

Lemma redirect_precedence_witness :
  @get_login_redirect Sample.django_settings Sample.acme (Some "/next/")
    = Some "/next/" ∧
  @get_login_redirect Sample.django_settings Sample.acme None = Some "/home/" ∧
  @get_logout_redirect Sample.django_settings Sample.acme (Some "") = None.
Proof.
  destruct (@redirect_precedence Sample.django_settings Sample.acme)
    as (H1 & H2 & _ & _ & _ & H6).
  split; [|split].
  - apply H1. discriminate.
  - apply H2; [by left | discriminate].
  - apply (H6 (Some "")); [by right | reflexivity].
Defined.

(** ** Built settings *)

Lemma get_path_cons k p d :
  get_path (k :: p) (PDict d) = d !! k ≫= get_path p.
Proof. simpl. by destruct (d !! k). Qed.

Lemma dict_update_lookup_overlay d other k v :
  other !! k = Some v → dict_update d other !! k = Some v.
Proof. intros Hk. unfold dict_update. by apply lookup_union_Some_l. Qed.

Lemma dict_update_lookup_other d other k :
  other !! k = None → dict_update d other !! k = d !! k.
Proof. intros Hk. unfold dict_update. by apply lookup_union_r. Qed.

(** A path that resolves in the overlay resolves to the same value after
    the update. *)
Lemma dict_update_get_path d other p v :
  p ≠ [] →
  get_path p (PDict other) = Some v →
  get_path p (PDict (dict_update d other)) = Some v.
Proof.
  destruct p as [|k p]; [done|]. intros _.
  rewrite !get_path_cons.
  destruct (other !! k) as [w|] eqn:Hk; [|done].
  by rewrite (dict_update_lookup_overlay _ _ _ _ Hk).
Qed.

Section settings_properties.
Context `{!Urls} `{!Json}.

Lemma sp_settings_dom self overlay k :
  sp_settings self = Ok overlay → is_Some (overlay !! k) ↔ k ∈ overlay_keys.
Proof.
  unfold sp_settings.
  destruct (get_entity_id self); [|done].
  destruct (get_acs self); [|done].
  destruct (get_slo self); [|done].
  simpl. intros [= <-].
  rewrite <- elem_of_dom, !dom_insert_L, dom_empty_L.
  unfold overlay_keys. set_solver.
Qed.

Lemma sp_settings_x509cert self overlay :
  sp_settings self = Ok overlay →
  get_path ["sp"; "x509cert"] (PDict overlay)
    = Some (PStr (x509_certificate self)).
Proof.
  unfold sp_settings.
  destruct (get_entity_id self); [|done].
  destruct (get_acs self); [|done].
  destruct (get_slo self); [|done].
  simpl. intros [= <-].
  rewrite lookup_insert_ne by done. rewrite lookup_insert_eq.
  repeat (rewrite lookup_insert_ne by done). by rewrite lookup_insert_eq.
Qed.

Lemma settings_Ok self d overlay :
  json_loads (saml_settings self) = Ok (PDict d) →
  sp_settings self = Ok overlay →
  settings self = Ok (dict_update d overlay).
Proof. unfold settings. by intros -> ->. Qed.

Hypothesis reverse_raises : ∀ name kwargs e,
  reverse name kwargs = Raise e → e = NoReverseMatch.

Lemma sp_settings_total self : ∃ overlay, sp_settings self = Ok overlay.
Proof using reverse_raises.
  unfold sp_settings, get_entity_id, get_absolute_url, get_acs, get_slo.
  destruct (get_url_total reverse_raises self "sp-idp-metadata" "/") as [? ->].
  destruct (get_url_total reverse_raises self "sp-idp-acs" "/") as [? ->].
  destruct (get_url_total reverse_raises self "sp-idp-slo" "/") as [? ->].
  destruct (str_truthy (entity_id self)); simpl; eauto.
Qed.

(** C1: when the stored blob is a JSON object, [settings] returns a dict in
    which [sp.x509cert] is the IdP's [x509_certificate], whatever the blob
    holds there, and in which every key path of the overlay [sp_settings]
    has the overlay's value. *)
Theorem settings_overlay_wins self d :
  json_loads (saml_settings self) = Ok (PDict d) →
  ∃ overlay s,
    sp_settings self = Ok overlay ∧ settings self = Ok s ∧
    get_path ["sp"; "x509cert"] (PDict s) = Some (PStr (x509_certificate self)) ∧
    ∀ p v, p ≠ [] → get_path p (PDict overlay) = Some v →
           get_path p (PDict s) = Some v.
Proof using reverse_raises.
  intros Hblob. destruct (sp_settings_total self) as [overlay Hov].
  exists overlay, (dict_update d overlay).
  split; [done|]. split; [by apply settings_Ok|]. split.
  - apply dict_update_get_path; [done|]. by apply sp_settings_x509cert.
  - intros p v. apply dict_update_get_path.
Qed.

(** C10: the merge in [settings] replaces top-level keys.  Under each of
    ["strict"], ["sp"], ["security"] and ["contactPerson"] the result holds
    the overlay's value and nothing else, so a sub-key that only the blob
    has there is gone; every other top-level key has the blob's value. *)
Theorem settings_replaces_top_level_keys self d :
  json_loads (saml_settings self) = Ok (PDict d) →
  ∃ overlay s,
    sp_settings self = Ok overlay ∧ settings self = Ok s ∧
    (∀ k, k ∈ overlay_keys → is_Some (overlay !! k) ∧ s !! k = overlay !! k) ∧
    (∀ k p, k ∈ overlay_keys →
       get_path (k :: p) (PDict s) = get_path (k :: p) (PDict overlay)) ∧
    (∀ k, k ∉ overlay_keys → s !! k = d !! k).
Proof using reverse_raises.
  intros Hblob. destruct (sp_settings_total self) as [overlay Hov].
  exists overlay, (dict_update d overlay).
  split; [done|]. split; [by apply settings_Ok|].
  assert (Hkeys : ∀ k, k ∈ overlay_keys →
            is_Some (overlay !! k) ∧ dict_update d overlay !! k = overlay !! k).
  { intros k Hk. apply (sp_settings_dom self overlay k Hov) in Hk as [v Hv].
    split; [by eexists|]. rewrite Hv. by apply dict_update_lookup_overlay. }
  split; [done|]. split.
  - intros k p Hk. rewrite !get_path_cons.
    by destruct (Hkeys k Hk) as [_ ->].
  - intros k Hk. apply dict_update_lookup_other.
    apply eq_None_not_Some. by rewrite (sp_settings_dom self overlay k Hov).
Qed.

End settings_properties.

Lemma sample_json_loads :
  @json_loads Sample.json (saml_settings Sample.acme) = Ok (PDict Sample.imported).
Proof. reflexivity. Defined.

Lemma settings_overlay_wins_witness :
  get_path ["sp"; "x509cert"] (PDict Sample.imported) = Some (PStr "BOGUS") ∧
  ∃ s, @settings Sample.urls Sample.json Sample.acme = Ok s ∧
       get_path ["sp"; "x509cert"] (PDict s) = Some (PStr "CERT-PEM").
Proof.
  split; [reflexivity|].
  destruct (@settings_overlay_wins Sample.urls Sample.json
              sample_reverse_raises Sample.acme Sample.imported sample_json_loads)
    as (overlay & s & _ & Hs & Hcert & _).
  exists s. split; [exact Hs | exact Hcert].
Defined.

Lemma settings_replaces_top_level_keys_witness :
  get_path ["sp"; "extra"] (PDict Sample.imported) = Some (PStr "kept?") ∧
  ∃ s, @settings Sample.urls Sample.json Sample.acme = Ok s ∧
       get_path ["sp"; "extra"] (PDict s) = None ∧
       s !! "idp" = Sample.imported !! "idp".
Proof.
  split; [reflexivity|].
  destruct (@settings_replaces_top_level_keys Sample.urls Sample.json
              sample_reverse_raises Sample.acme Sample.imported sample_json_loads)
    as (overlay & s & Hov & Hs & _ & Hsub & Hother).
  exists s. split; [exact Hs|]. split.
  - rewrite (Hsub "sp" ["extra"]) by (unfold overlay_keys; repeat constructor).
    vm_compute in Hov. injection Hov as Hov. rewrite <- Hov. reflexivity.
  - apply Hother. unfold overlay_keys.
    rewrite !elem_of_cons, elem_of_nil. intros [?|[?|[?|[?|[]]]]]; discriminate.
Defined.

(** ** Ordered dictionaries *)

Lemma od_get_set {V} (d : OrderedDict V) k v k' :
  od_get (od_set d k v) k' = if decide (k = k') then Some v else od_get d k'.
Proof.
  induction d as [|[k0 v0] d IH]; simpl.
  - done.
  - destruct (decide (k0 = k)) as [->|Hne]; simpl.
    + by destruct (decide (k = k')).
    + rewrite IH. destruct (decide (k0 = k')) as [->|]; [|done].
      by rewrite decide_False by congruence.
Qed.

Lemma od_get_is_Some {V} (d : OrderedDict V) k :
  is_Some (od_get d k) ↔ k ∈ od_keys d.
Proof.
  unfold od_keys. induction d as [|[k0 v0] d IH]; simpl.
  - rewrite elem_of_nil. split; [by intros [? ?] | done].
  - rewrite elem_of_cons. destruct (decide (k0 = k)) as [->|Hne].
    + split; [by left | by eexists].
    + rewrite IH. split; [by right | by intros [?|?]].
Qed.

Lemma od_keys_set_NoDup {V} (d : OrderedDict V) k v :
  NoDup (od_keys d) → NoDup (od_keys (od_set d k v)).
Proof.
  unfold od_keys. induction d as [|[k0 v0] d IH]; simpl.
  - intros _. apply NoDup_singleton.
  - rewrite NoDup_cons. intros [Hk0 Hd].
    destruct (decide (k0 = k)) as [->|Hne]; simpl.
    + by apply NoDup_cons.
    + apply NoDup_cons. split; [|by apply IH].
      intros Hin. apply Hk0.
      apply (od_get_is_Some (od_set d k v)) in Hin.
      rewrite od_get_set, decide_False in Hin by done.
      by apply od_get_is_Some.
Qed.

(** ** Mapped attributes *)

Section mapped_attributes_properties.
Variable s : saml.t.

Local Abbreviation step := (mapped_attributes_step s).

Lemma step_get d a k :
  od_get (step d a) k =
    match saml.get_attribute s (saml_attribute a) with
    | Some v => if decide (mapped_name a = k) then Some v else od_get d k
    | None => od_get d k
    end.
Proof.
  unfold mapped_attributes_step.
  destruct (saml.get_attribute s (saml_attribute a)); [|done].
  apply od_get_set.
Qed.

(** Rows that do not provide a value for [k] leave the entry of [k] as it
    is. *)
Lemma foldl_step_get_unchanged l d k :
  (∀ b, b ∈ l → mapped_name b = k →
        saml.get_attribute s (saml_attribute b) = None) →
  od_get (foldl step d l) k = od_get d k.
Proof.
  revert d. induction l as [|a l IH]; intros d Hl; simpl; [done|].
  rewrite IH by (intros b Hb; apply Hl; by right).
  rewrite step_get.
  destruct (saml.get_attribute s (saml_attribute a)) eqn:Ha; [|done].
  destruct (decide (mapped_name a = k)) as [Hk|]; [|done].
  rewrite (Hl a) in Ha; [done | by left | done].
Qed.

Lemma foldl_step_keys l d k :
  k ∈ od_keys (foldl step d l) →
  k ∈ od_keys d ∨
  ∃ a, a ∈ l ∧ mapped_name a = k ∧
       is_Some (saml.get_attribute s (saml_attribute a)).
Proof.
  revert d. induction l as [|a l IH]; intros d; simpl; [by left|].
  intros [Hk|(b & Hb & Hbk & Hbv)]%IH.
  - apply od_get_is_Some in Hk. rewrite step_get in Hk.
    destruct (saml.get_attribute s (saml_attribute a)) eqn:Ha.
    + destruct (decide (mapped_name a = k)).
      * right. exists a. rewrite Ha. split; [by left | by eauto].
      * left. by apply od_get_is_Some.
    + left. by apply od_get_is_Some.
  - right. exists b. split; [by right | done].
Qed.

Lemma foldl_step_NoDup l d :
  NoDup (od_keys d) → NoDup (od_keys (foldl step d l)).
Proof.
  revert d. induction l as [|a l IH]; intros d Hd; simpl; [done|].
  apply IH. unfold mapped_attributes_step.
  destruct (saml.get_attribute s (saml_attribute a)); [|done].
  by apply od_keys_set_NoDup.
Qed.

(** C7: in the dictionary [mapped_attributes] returns, every key is the
    non-empty [mapped_name] of a mapping of the IdP whose attribute the
    assertion has (mappings with an empty name contribute nothing); the value
    under a name is the value of the last mapping, in queryset order, that
    maps a present attribute to that name, whatever earlier mappings stored
    there; and a name whose mappings are all absent from the assertion has no
    entry.  The function is total: an absent attribute raises nothing. *)
Theorem mapped_attributes_spec self tbl :
  let attrs := mapped_attributes self tbl s in
  (∀ k, k ∈ od_keys attrs →
     k ≠ "" ∧ ∃ a, a ∈ attributes self tbl ∧ mapped_name a = k ∧
                   is_Some (saml.get_attribute s (saml_attribute a))) ∧
  od_get attrs "" = None ∧
  (∀ l1 a l2 v,
     attributes self tbl = l1 ++ a :: l2 →
     mapped_name a ≠ "" →
     saml.get_attribute s (saml_attribute a) = Some v →
     (∀ b, b ∈ l2 → mapped_name b = mapped_name a →
           saml.get_attribute s (saml_attribute b) = None) →
     od_get attrs (mapped_name a) = Some v) ∧
  (∀ k, (∀ a, a ∈ attributes self tbl → mapped_name a = k →
              saml.get_attribute s (saml_attribute a) = None) →
        od_get attrs k = None) ∧
  NoDup (od_keys attrs).
Proof.
  intros attrs. subst attrs. unfold mapped_attributes, exclude_mapped_name.
  assert (Hkeys : ∀ k,
    k ∈ od_keys (foldl step [] (filter (λ a, mapped_name a ≠ "") (attributes self tbl))) →
    k ≠ "" ∧ ∃ a, a ∈ attributes self tbl ∧ mapped_name a = k ∧
                  is_Some (saml.get_attribute s (saml_attribute a))).
  { intros k [Hk|(a & [Ha Hin]%list_elem_of_filter & Hak & Hav)]%foldl_step_keys.
    - by apply elem_of_nil in Hk.
    - split; [congruence | by exists a]. }
  split; [done|]. split; [|split; [|split]].
  - apply eq_None_not_Some. intros Hsome%od_get_is_Some.
    by destruct (Hkeys _ Hsome).
  - intros l1 a l2 v -> Hname Hv Hlater.
    rewrite filter_app, filter_cons_True by done.
    rewrite foldl_app. simpl.
    rewrite foldl_step_get_unchanged.
    + rewrite step_get, Hv. by rewrite decide_True.
    + intros b [_ Hb]%list_elem_of_filter. by apply Hlater.
  - intros k Habsent. rewrite foldl_step_get_unchanged; [done|].
    intros b [_ Hb]%list_elem_of_filter. by apply Habsent.
  - apply foldl_step_NoDup. apply NoDup_nil_2.
Qed.

End mapped_attributes_properties.

Lemma mapped_attributes_spec_witness :
  mapped_attributes Sample.acme Sample.mappings Sample.assertion
    = [("username", ["u-17"]); ("email", ["b@x.com"])] ∧
  od_get (mapped_attributes Sample.acme Sample.mappings Sample.assertion)
         (mapped_name Sample.mail_attr) = Some ["b@x.com"].
Proof.
  split; [reflexivity|].
  destruct (mapped_attributes_spec Sample.assertion Sample.acme Sample.mappings)
    as (_ & _ & Hlast & _).
  apply (Hlast [Sample.uid_attr; Sample.email_attr] Sample.mail_attr
               [Sample.unmapped_attr]).
  - reflexivity.
  - discriminate.
  - reflexivity.
  - intros b Hb%list_elem_of_singleton. subst b. discriminate.
Defined.

(** ** NameID *)

Lemma first_None qs : first qs = None ↔ qs = [].
Proof.
  destruct qs as [|a qs]; simpl; [done|].
  destruct (first qs); [case_bool_decide|]; done.
Qed.

Lemma first_singleton a : first [a] = Some a.
Proof. done. Qed.

(** [first] returns a row of the queryset with the smallest primary key. *)
Lemma first_Some qs m :
  first qs = Some m →
  m ∈ qs ∧ ∀ m', m' ∈ qs → (attr_id m ≤ attr_id m')%nat.
Proof.
  revert m. induction qs as [|a qs IH]; intros m; simpl; [done|].
  destruct (first qs) as [m0|] eqn:Hm0.
  - destruct (IH m0 eq_refl) as [Hin Hmin].
    case_bool_decide as Hle; intros [= <-].
    + split; [by left|]. intros m' [->|Hm']%elem_of_cons; [done|].
      etrans; [exact Hle | by apply Hmin].
    + split; [by right|]. intros m' [->|Hm']%elem_of_cons; [lia | by apply Hmin].
  - apply first_None in Hm0 as ->. intros [= <-].
    split; [by left|]. by intros m' ->%list_elem_of_singleton.
Qed.


Lemma nameid_attr_only self tbl m :
  filter_is_nameid true (attributes self tbl) = [m] →
  nameid_attr self tbl = Some m.
Proof. unfold nameid_attr. by intros ->. Qed.

Lemma nameid_attr_none self tbl :
  filter_is_nameid true (attributes self tbl) = [] ↔
  nameid_attr self tbl = None.
Proof. unfold nameid_attr. by rewrite first_None. Qed.

(** C2, as the code has it: when the flagged mapping that [first] selects
    (the only one, or of several the one with the smallest primary key) is on
    ["email"] and the assertion has [["a@x.com"]] there, [get_nameid] returns
    ["a@x.com"]; with no flagged mapping it returns [saml.get_nameid()]
    unchanged; when the selected attribute is absent from the assertion the
    subscript of [None] raises [TypeError]. *)
Theorem get_nameid_selected_mapping self tbl s :
  (∀ m, filter_is_nameid true (attributes self tbl) = [m] ∨
        nameid_attr self tbl = Some m →
        saml_attribute m = "email" →
        saml.get_attribute s "email" = Some ["a@x.com"] →
        get_nameid self tbl s = Ok (Some "a@x.com")) ∧
  (filter_is_nameid true (attributes self tbl) = [] →
   get_nameid self tbl s = Ok (saml.get_nameid s)) ∧
  (∀ m, filter_is_nameid true (attributes self tbl) = [m] ∨
        nameid_attr self tbl = Some m →
        saml.get_attribute s (saml_attribute m) = None →
        get_nameid self tbl s = Raise TypeError).
Proof.
  unfold get_nameid. split; [|split].
  - intros m Hm Hname Hv.
    assert (nameid_attr self tbl = Some m) as ->
      by (destruct Hm; [by apply nameid_attr_only | done]).
    by rewrite Hname, Hv.
  - by intros ->%nameid_attr_none.
  - intros m Hm Hv.
    assert (nameid_attr self tbl = Some m) as ->
      by (destruct Hm; [by apply nameid_attr_only | done]).
    by rewrite Hv.
Qed.

Lemma get_nameid_selected_mapping_witness :
  get_nameid Sample.acme Sample.only_email Sample.assertion
    = Ok (Some "a@x.com") ∧
  get_nameid Sample.acme [] Sample.assertion = Ok (Some "library-nameid") ∧
  get_nameid Sample.acme Sample.only_email Sample.assertion_without_email
    = Raise TypeError.
Proof.
  split; [|split].
  - destruct (get_nameid_selected_mapping Sample.acme Sample.only_email
                Sample.assertion) as (H & _ & _).
    apply (H Sample.email_attr); [by left | reflexivity | reflexivity].
  - destruct (get_nameid_selected_mapping Sample.acme [] Sample.assertion)
      as (_ & H & _).
    apply H. reflexivity.
  - destruct (get_nameid_selected_mapping Sample.acme Sample.only_email
                Sample.assertion_without_email) as (_ & _ & H).
    apply (H Sample.email_attr); [by left | reflexivity].
Defined.

(** C2 as stated fails: an IdP with a mapping flagged on ["email"] and a
    second flagged mapping with a smaller primary key gets the other
    attribute's value. *)
Lemma get_nameid_email_counterexample :
  ¬ (∀ self tbl s,
       (∃ m, m ∈ attributes self tbl ∧ is_nameid m = true ∧
             saml_attribute m = "email") →
       saml.get_attribute s "email" = Some ["a@x.com"] →
       get_nameid self tbl s = Ok (Some "a@x.com")).
Proof.
  intros H.
  specialize (H Sample.acme Sample.two_flagged Sample.assertion).
  assert (Hgot : get_nameid Sample.acme Sample.two_flagged Sample.assertion
                 = Ok (Some "u-17")) by reflexivity.
  rewrite H in Hgot; [discriminate Hgot | | reflexivity].
  exists Sample.email_attr. split; [|done].
  apply list_elem_of_filter. split; [reflexivity|].
  unfold Sample.two_flagged. by right; left.
Qed.

(** ** The attribute table *)

Lemma fresh_id_gt tbl r : r ∈ tbl → (attr_id r < fresh_id tbl)%nat.
Proof.
  unfold fresh_id. induction tbl as [|r0 tbl IH].
  - by intros ?%elem_of_nil.
  - rewrite fmap_cons. simpl.
    intros [->|Hin]%elem_of_cons; [|specialize (IH Hin)];
      apply Nat.lt_succ_r.
    + apply Nat.le_max_l.
    + etrans; [|apply Nat.le_max_r]. by apply Nat.lt_succ_r.
Qed.

Lemma not_violates_unique_together tbl r r' :
  violates_unique_together tbl r = false →
  r' ∈ tbl → idp r' = idp r → saml_attribute r' = saml_attribute r →
  attr_id r' = attr_id r.
Proof.
  unfold violates_unique_together.
  rewrite bool_decide_eq_false, Exists_exists.
  intros Hnone Hin Hidp Hname.
  destruct (decide (attr_id r' = attr_id r)) as [|Hne]; [done|].
  destruct Hnone. by exists r'.
Qed.

Lemma unique_together_insert tbl r :
  unique_together tbl →
  violates_unique_together tbl r = false →
  unique_together (tbl ++ [r]).
Proof.
  intros Htbl Hr r1 r2.
  rewrite !elem_of_app, !list_elem_of_singleton.
  intros [H1| ->] [H2| ->] Hidp Hname.
  - by apply Htbl.
  - by apply (not_violates_unique_together tbl).
  - symmetry. by apply (not_violates_unique_together tbl).
  - done.
Qed.

Lemma unique_together_update tbl r :
  unique_together tbl →
  violates_unique_together tbl r = false →
  unique_together
    ((λ r', if decide (attr_id r' = attr_id r) then r else r') <$> tbl).
Proof.
  intros Htbl Hr r1 r2.
  rewrite !list_elem_of_fmap.
  intros (x1 & -> & H1) (x2 & -> & H2).
  destruct (decide (attr_id x1 = attr_id r)) as [E1|N1],
           (decide (attr_id x2 = attr_id r)) as [E2|N2]; intros Hidp Hname.
  - done.
  - symmetry. by apply (not_violates_unique_together tbl).
  - by apply (not_violates_unique_together tbl).
  - by apply Htbl.
Qed.

Lemma unique_together_delete tbl i :
  unique_together tbl → unique_together (attr_delete tbl i).
Proof.
  unfold attr_delete. intros Htbl r1 r2.
  rewrite !list_elem_of_filter. intros [_ H1] [_ H2]. by apply Htbl.
Qed.

Lemma attr_id_update (tbl : attribute_table) r :
  attr_id <$> ((λ r', if decide (attr_id r' = attr_id r) then r else r') <$> tbl)
  = attr_id <$> tbl.
Proof.
  rewrite <- list_fmap_compose. apply list_fmap_ext.
  intros ? r' _. simpl. by destruct (decide (attr_id r' = attr_id r)).
Qed.

Lemma attr_id_delete_NoDup (tbl : attribute_table) i :
  NoDup (attr_id <$> tbl) → NoDup (attr_id <$> attr_delete tbl i).
Proof.
  unfold attr_delete. induction tbl as [|r tbl IH]; [done|].
  rewrite fmap_cons, NoDup_cons. intros [Hr Htbl].
  rewrite filter_cons. destruct (decide (attr_id r ≠ i)); [|by apply IH].
  rewrite fmap_cons. apply NoDup_cons. split; [|by apply IH].
  rewrite list_elem_of_fmap. intros (x & Hx & [_ Hin]%list_elem_of_filter).
  apply Hr. rewrite list_elem_of_fmap. by exists x.
Qed.

Lemma attr_step_invariant tbl tbl' :
  attr_step tbl tbl' → table_invariant tbl → table_invariant tbl'.
Proof.
  intros Hstep [Hpk Huniq]. destruct Hstep as [tbl r tbl' H|tbl r tbl' H|tbl i].
  - unfold attr_create in H.
    destruct (violates_unique_together _ _) eqn:Hv; [done|].
    injection H as <-. split; [|by apply unique_together_insert].
    rewrite fmap_app. apply NoDup_app. split; [done|]. split.
    + intros x (r0 & -> & Hr0)%list_elem_of_fmap.
      simpl. rewrite list_elem_of_singleton.
      apply fresh_id_gt in Hr0. lia.
    + apply NoDup_singleton.
  - unfold attr_save in H.
    destruct (violates_unique_together _ _) eqn:Hv; [done|].
    case_bool_decide as Hin; injection H as <-.
    + split; [by rewrite attr_id_update | by apply unique_together_update].
    + split; [|by apply unique_together_insert].
      rewrite fmap_app. apply NoDup_app. split; [done|]. split.
      * intros x Hx. simpl. rewrite list_elem_of_singleton. by intros ->.
      * apply NoDup_singleton.
  - split; [by apply attr_id_delete_NoDup | by apply unique_together_delete].
Qed.

Lemma reachable_invariant tbl : reachable tbl → table_invariant tbl.
Proof.
  unfold reachable. revert tbl. apply rtc_ind_r.
  - split; [apply NoDup_nil_2 | by intros r1 r2 ?%elem_of_nil].
  - intros tbl tbl' _ Hstep IH. by eapply attr_step_invariant.
Qed.


Lemma two_flagged_reachable : reachable Sample.two_flagged.
Proof.
  unfold reachable.
  eapply rtc_l; [apply (step_create [] Sample.uid_attr); reflexivity|].
  eapply rtc_l; [apply (step_create _ Sample.email_attr); reflexivity|].
  apply rtc_refl.
Defined.



(** ** Importing metadata *)

Section import_metadata_properties.
Context `{!Json} `{!MetadataParser}.

Lemma import_metadata_Raise_stored now w e w' :
  import_metadata now w = (Raise e, w') → stored w' = stored w.
Proof.
  unfold import_metadata. unfold_M.
  repeat (case_match; simpl in *; simplify_eq; try done);
    by intros [= _ <-].
Qed.

(** When every step succeeds the row of the IdP becomes the instance with
    the new XML, settings and import time. *)
Lemma import_metadata_Ok now w raw xml parsed dumped :
  metadata_url (instance w) ≠ "" →
  get_metadata (metadata_url (instance w))
               (verify_metadata_cert (instance w)) = Ok raw →
  decode_utf8 raw = Ok xml →
  parse xml = Ok parsed →
  json_dumps parsed = Ok dumped →
  let self' := set_last_import (Some now)
                 (set_saml_settings dumped
                    (set_metadata_xml xml (instance w))) in
  import_metadata now w
    = (Ok tt, mkWorld self' (<[pk (instance w) := self']> (stored w))).
Proof.
  intros Hurl%str_truthy_true Hraw Hxml Hparsed Hdumped.
  unfold import_metadata. unfold_M.
  rewrite Hurl; simpl. rewrite Hraw, Hxml; simpl. by rewrite Hparsed, Hdumped.
Qed.

(** C4: when [import_metadata] raises, the stored rows are the ones from
    before the call, so the stored [metadata_xml], [saml_settings] and
    [last_import] are retained.  A failed fetch leaves the instance as it was
    too; a failed parse after a successful fetch has already assigned the
    fetched XML to the instance, which is not saved. *)
Theorem import_metadata_failure_keeps_stored_state now w :
  (∀ e w', import_metadata now w = (Raise e, w') → stored w' = stored w) ∧
  (∀ e, metadata_url (instance w) ≠ "" →
        get_metadata (metadata_url (instance w))
                     (verify_metadata_cert (instance w)) = Raise e →
        import_metadata now w = (Raise e, w)) ∧
  (∀ e, metadata_url (instance w) = "" →
        parse (metadata_xml (instance w)) = Raise e →
        import_metadata now w = (Raise e, w)) ∧
  (∀ e raw xml, metadata_url (instance w) ≠ "" →
        get_metadata (metadata_url (instance w))
                     (verify_metadata_cert (instance w)) = Ok raw →
        decode_utf8 raw = Ok xml →
        parse xml = Raise e →
        import_metadata now w
          = (Raise e, mkWorld (set_metadata_xml xml (instance w)) (stored w))).
Proof.
  split; [intros e w'; apply import_metadata_Raise_stored|].
  destruct w as [self rows]. simpl. split; [|split].
  - intros e Hurl%str_truthy_true Hraw.
    unfold import_metadata. unfold_M. rewrite Hurl; simpl. by rewrite Hraw.
  - intros e Hurl%str_truthy_false Hparse.
    unfold import_metadata. unfold_M. rewrite Hurl; simpl. by rewrite Hparse.
  - intros e raw xml Hurl%str_truthy_true Hraw Hxml Hparse.
    unfold import_metadata. unfold_M.
    rewrite Hurl; simpl. rewrite Hraw, Hxml; simpl. by rewrite Hparse.
Qed.

End import_metadata_properties.

Lemma import_metadata_failure_keeps_stored_state_witness :
  ∃ w', @import_metadata Sample.json Sample.unparsable 5%Z Sample.before
          = (Raise (LibraryError "XMLSyntaxError"), w') ∧
        stored w' = stored Sample.before ∧
        @import_metadata Sample.json Sample.unreachable 5%Z Sample.before
          = (Raise (LibraryError "URLError"), Sample.before).
Proof.
  destruct (@import_metadata_failure_keeps_stored_state Sample.json
              Sample.unparsable 5%Z Sample.before) as (Hstored & _).
  destruct (@import_metadata_failure_keeps_stored_state Sample.json
              Sample.unreachable 5%Z Sample.before) as (_ & Hfetch & _).
  eexists. split; [reflexivity|]. split.
  - eapply Hstored. reflexivity.
  - apply Hfetch; [discriminate | reflexivity].
Defined.

(** ** Generating a certificate *)

Section generate_certificate_properties.
Context `{!Crypto}.

Lemma generate_certificate_Raise_stored now w e w' :
  generate_certificate now w = (Raise e, w') → stored w' = stored w.
Proof.
  unfold generate_certificate. unfold_M.
  repeat (case_match; simpl in *; simplify_eq; try done);
    by intros [= _ <-].
Qed.

(** What a call that returns has done. *)
Lemma generate_certificate_Ok_inv now w w' :
  generate_certificate now w = (Ok tt, w') →
  ∃ key cert,
    generate_private_key 65537 2048 = Ok key ∧
    private_bytes key = Ok (private_key (instance w')) ∧
    public_bytes cert = Ok (x509_certificate (instance w')) ∧
    sign (tbs cert) key = Ok (signature cert) ∧
    public_key_of (tbs cert) = public_key key ∧
    subject_name (tbs cert) = issuer_name (tbs cert) ∧
    not_valid_before (tbs cert) = now ∧
    not_valid_after (tbs cert) = (now + timedelta_days 3650)%Z ∧
    certificate_expires (instance w') = Some (now + timedelta_days 3650)%Z ∧
    instance w' =
      set_x509_certificate (x509_certificate (instance w'))
        (set_certificate_expires (Some (now + timedelta_days 3650)%Z)
           (set_private_key (private_key (instance w')) (instance w))) ∧
    stored w' = <[pk (instance w) := instance w']> (stored w).
Proof.
  unfold generate_certificate. unfold_M.
  destruct (urlparse_netloc _) as [netloc|]; simpl; [|done].
  destruct (generate_private_key _ _) as [key|] eqn:Hkey; simpl; [|done].
  destruct (private_bytes key) as [pem|] eqn:Hpem; simpl; [|done].
  destruct (x509_name netloc) as [cn|]; simpl; [|done].
  destruct (sign _ key) as [sig|] eqn:Hsig; simpl; [|done].
  destruct (public_bytes _) as [cert_pem|] eqn:Hcert; simpl; [|done].
  intros [= <-]. simpl.
  eexists key, (mkCertificate _ sig). simpl.
  split; [done|]. split; [done|]. split; [exact Hcert|].
  split; [exact Hsig|]. by repeat split.
Qed.

(** When signing fails the instance already carries the new key and expiry
    next to the old certificate; it is not saved. *)
Lemma generate_certificate_sign_Raise now w netloc key pem cn e :
  urlparse_netloc (base_url (instance w)) = Ok netloc →
  generate_private_key 65537 2048 = Ok key →
  private_bytes key = Ok pem →
  x509_name netloc = Ok cn →
  sign (mkBuilder cn cn (public_key key) random_serial_number now
                  (now + timedelta_days 3650)%Z true (Some 0%nat) false) key
    = Raise e →
  generate_certificate now w
    = (Raise e,
       mkWorld (set_certificate_expires (Some (now + timedelta_days 3650)%Z)
                  (set_private_key pem (instance w)))
               (stored w)).
Proof.
  intros Hurl Hkey Hpem Hcn Hsign.
  unfold generate_certificate. unfold_M.
  rewrite Hurl; simpl. rewrite Hkey; simpl. rewrite Hpem; simpl.
  rewrite Hcn; simpl. by rewrite Hsign.
Qed.

(** C5: a call of [generate_certificate] at time [now] that returns has
    built a certificate valid from [now] to [now] plus 3650 days, has set
    [certificate_expires] to that end, and has stored the row with the new
    key and the new certificate in one [save]; the call returns whenever the
    library calls do; and a call that raises leaves the stored rows
    untouched. *)
Theorem generate_certificate_window_and_persistence now w :
  (∀ w', generate_certificate now w = (Ok tt, w') →
     ∃ key cert,
       private_bytes key = Ok (private_key (instance w')) ∧
       public_bytes cert = Ok (x509_certificate (instance w')) ∧
       public_key_of (tbs cert) = public_key key ∧
       not_valid_before (tbs cert) = now ∧
       not_valid_after (tbs cert) = (now + timedelta_days 3650)%Z ∧
       (not_valid_after (tbs cert) - not_valid_before (tbs cert)
          = 3650 * 86400 * 1000000)%Z ∧
       certificate_expires (instance w') = Some (now + timedelta_days 3650)%Z ∧
       stored w' = <[pk (instance w) := instance w']> (stored w)) ∧
  (is_ok (urlparse_netloc (base_url (instance w))) = true →
   is_ok (generate_private_key 65537 2048) = true →
   (∀ key, is_ok (private_bytes key) = true) →
   (∀ cn, is_ok (x509_name cn) = true) →
   (∀ builder key, is_ok (sign builder key) = true) →
   (∀ cert, is_ok (public_bytes cert) = true) →
   ∃ w', generate_certificate now w = (Ok tt, w')) ∧
  (∀ e w', generate_certificate now w = (Raise e, w') → stored w' = stored w).
Proof.
  split; [|split].
  - intros w' (key & cert & _ & Hpem & Hcert & _ & Hpub & _ & Hnb & Hna & Hexp
                 & _ & Hstored)%generate_certificate_Ok_inv.
    exists key, cert. repeat split; try done.
    rewrite Hnb, Hna. unfold timedelta_days. lia.
  - intros Hurl Hgen Hpem Hname Hsign Hcert.
    unfold generate_certificate. unfold_M.
    destruct (urlparse_netloc _) as [netloc|]; [simpl|done].
    destruct (generate_private_key _ _) as [key|]; [simpl|done].
    specialize (Hpem key).
    destruct (private_bytes key) as [pem|]; [simpl|done].
    specialize (Hname netloc).
    destruct (x509_name netloc) as [cn|]; [simpl|done].
    match goal with |- context [sign ?b ?k] => specialize (Hsign b k) end.
    destruct (sign _ key) as [sig|]; [simpl|done].
    match goal with |- context [public_bytes ?c] => specialize (Hcert c) end.
    destruct (public_bytes _) as [cert_pem|]; [simpl|done].
    eauto.
  - intros e w'. apply generate_certificate_Raise_stored.
Qed.

End generate_certificate_properties.

Lemma generate_certificate_window_and_persistence_witness :
  (∃ w', @generate_certificate (Sample.crypto true) 1000%Z Sample.before
           = (Ok tt, w') ∧
         certificate_expires (instance w') = Some 315360000001000%Z ∧
         stored w' !! 1%nat = Some (instance w')) ∧
  (∃ w', @generate_certificate (Sample.crypto false) 1000%Z Sample.before
           = (Raise (LibraryError "UnsupportedAlgorithm"), w') ∧
         stored w' = stored Sample.before).
Proof.
  destruct (@generate_certificate_window_and_persistence (Sample.crypto true)
              1000%Z Sample.before) as (Hok & Htotal & _).
  destruct (@generate_certificate_window_and_persistence (Sample.crypto false)
              1000%Z Sample.before) as (_ & _ & Hfail).
  split.
  - destruct Htotal as [w' Hw']; try reflexivity.
    exists w'. split; [exact Hw'|].
    destruct (Hok w' Hw') as (key & cert & _ & _ & _ & _ & _ & _ & Hexp & Hst).
    split; [exact Hexp|]. rewrite Hst. apply lookup_insert_eq.
  - eexists. split; [reflexivity|]. eapply Hfail. reflexivity.
Defined.

(** * Further properties *)

(** ** Routing errors *)

Section routing_properties.
Context `{!Urls} `{!Json}.

Lemma get_url_Raise self name default e :
  reverse name (url_params self) = Raise e → e ≠ NoReverseMatch →
  get_url self name default = Raise e.
Proof. unfold get_url. intros -> He. by destruct e. Qed.

(** X1: [get_url] swallows [NoReverseMatch] only.  When [reverse] raises
    another exception for the endpoint names, every URL getter raises it, and
    so do [sp_settings] and, for a blob that is a JSON object, [settings];
    [get_entity_id] still returns an explicitly configured entity ID, without
    resolving anything. *)
Theorem routing_exception_propagates self e :
  e ≠ NoReverseMatch →
  (∀ name, name ∈ endpoint_names →
           reverse name (url_params self) = Raise e) →
  (∀ name, name ∈ endpoint_names → get_url self name "/" = Raise e) ∧
  get_acs self = Raise e ∧
  get_slo self = Raise e ∧
  (entity_id self = "" → get_entity_id self = Raise e) ∧
  (entity_id self ≠ "" → get_entity_id self = Ok (entity_id self)) ∧
  sp_settings self = Raise e ∧
  (∀ d, json_loads (saml_settings self) = Ok (PDict d) →
        settings self = Raise e).
Proof.
  intros He Hrev.
  assert (Hurl : ∀ name, name ∈ endpoint_names →
                         get_url self name "/" = Raise e).
  { intros name Hname. apply get_url_Raise; [by apply Hrev | done]. }
  assert (Hacs : get_acs self = Raise e).
  { unfold get_acs. rewrite Hurl; [done|]. unfold endpoint_names.
    repeat constructor. }
  assert (Hslo : get_slo self = Raise e).
  { unfold get_slo. rewrite Hurl; [done|]. unfold endpoint_names.
    repeat constructor. }
  assert (Hsp : sp_settings self = Raise e).
  { unfold sp_settings, get_entity_id, get_absolute_url.
    rewrite Hacs. rewrite Hurl by (unfold endpoint_names; repeat constructor).
    by destruct (str_truthy (entity_id self)). }
  repeat split; try done.
  - intros Hblank. unfold get_entity_id, get_absolute_url.
    rewrite Hblank. simpl.
    rewrite Hurl; [done|]. unfold endpoint_names. repeat constructor.
  - intros Hset%str_truthy_true. unfold get_entity_id. by rewrite Hset.
  - intros d Hd. unfold settings. rewrite Hd. simpl. by rewrite Hsp.
Qed.

(** The three ways [settings] can end. *)
Lemma settings_cases self :
  (∀ e, json_loads (saml_settings self) = Raise e → settings self = Raise e) ∧
  (∀ v, json_loads (saml_settings self) = Ok v → (∀ d, v ≠ PDict d) →
        settings self = Raise AttributeError) ∧
  (∀ s, settings self = Ok s →
        ∃ d overlay, json_loads (saml_settings self) = Ok (PDict d) ∧
                     sp_settings self = Ok overlay ∧
                     s = dict_update d overlay).
Proof.
  unfold settings. split; [|split].
  - by intros e ->.
  - intros v -> Hv. simpl. destruct v; try done. by destruct (Hv d).
  - intros s. destruct (json_loads (saml_settings self)) as [v|]; [|done].
    simpl. destruct v; try done.
    destruct (sp_settings self) as [overlay|]; [|done].
    simpl. intros [= <-]. by exists d, overlay.
Qed.

(** X2: [settings] returns only for a blob that is a JSON object.  An
    exception of [json.loads] (the blank blob of an IdP that has not imported
    metadata, for instance) is raised as it is, and a blob that decodes to
    anything but an object raises [AttributeError], in both cases before any
    URL is resolved. *)
Theorem settings_needs_json_object self :
  (∀ e, json_loads (saml_settings self) = Raise e → settings self = Raise e) ∧
  (∀ v, json_loads (saml_settings self) = Ok v → (∀ d, v ≠ PDict d) →
        settings self = Raise AttributeError) ∧
  (∀ s, settings self = Ok s →
        ∃ d overlay, json_loads (saml_settings self) = Ok (PDict d) ∧
                     sp_settings self = Ok overlay ∧
                     s = dict_update d overlay).
Proof. exact (settings_cases self). Qed.

(** X3: the top-level keys of the built settings are the keys of the
    imported blob together with the four keys of the overlay. *)
Theorem settings_keys self d s :
  json_loads (saml_settings self) = Ok (PDict d) →
  settings self = Ok s →
  dom s = dom d ∪ list_to_set overlay_keys.
Proof.
  intros Hd Hs. destruct (settings_cases self) as (_ & _ & Hinv).
  apply Hinv in Hs as (d' & overlay & Hd' & Hov & ->).
  rewrite Hd in Hd'. injection Hd' as <-.
  unfold dict_update. rewrite dom_union_L.
  assert (dom overlay = list_to_set overlay_keys) as ->;
    [|by apply (comm_L (∪))].
  apply set_eq. intros k.
  rewrite elem_of_dom, elem_of_list_to_set.
  by apply (sp_settings_dom self).
Qed.

(** X4: when no URL pattern resolves, [sp_settings] still returns, and the
    overlay announces the same URL, [base_url] followed by ["/"], as
    Assertion Consumer Service, as Single Logout Service and, for a blank
    [entity_id], as entity ID. *)
Theorem sp_settings_without_routes self :
  (∀ name, name ∈ endpoint_names →
           reverse name (url_params self) = Raise NoReverseMatch) →
  ∃ overlay, sp_settings self = Ok overlay ∧
    get_path ["sp"; "assertionConsumerService"; "url"] (PDict overlay)
      = Some (PStr (base_url self +:+ "/")) ∧
    get_path ["sp"; "singleLogoutService"; "url"] (PDict overlay)
      = Some (PStr (base_url self +:+ "/")) ∧
    get_path ["sp"; "entityId"] (PDict overlay)
      = Some (PStr (if str_truthy (entity_id self) then entity_id self
                    else base_url self +:+ "/")).
Proof.
  intros Hrev.
  assert (Hurl : ∀ name, name ∈ endpoint_names →
                         get_url self name "/" = Ok "/").
  { intros name Hname. apply get_url_NoReverseMatch. by apply Hrev. }
  unfold sp_settings, get_entity_id, get_absolute_url, get_acs, get_slo.
  rewrite !Hurl by (unfold endpoint_names; repeat constructor).
  destruct (str_truthy (entity_id self)); simpl;
    (eexists; split; [reflexivity|]); simpl;
    repeat split;
    repeat (first [ rewrite lookup_insert_eq
                  | rewrite lookup_insert_ne by done ]); done.
Qed.

End routing_properties.

Lemma routing_exception_propagates_witness :
  @sp_settings Fixtures.broken_urls Sample.acme
    = Raise (LibraryError "ImproperlyConfigured") ∧
  @get_entity_id Fixtures.broken_urls Fixtures.explicit = Ok "urn:example:sp".
Proof.
  assert (Hne : LibraryError "ImproperlyConfigured" ≠ NoReverseMatch)
    by discriminate.
  destruct (@routing_exception_propagates Fixtures.broken_urls Sample.json
              Sample.acme _ Hne (λ _ _, eq_refl)) as (_ & _ & _ & _ & _ & H & _).
  destruct (@routing_exception_propagates Fixtures.broken_urls Sample.json
              Fixtures.explicit _ Hne (λ _ _, eq_refl))
    as (_ & _ & _ & _ & H' & _).
  split; [exact H | apply H'; discriminate].
Defined.

Lemma settings_needs_json_object_witness :
  @settings Sample.urls Fixtures.json Fixtures.explicit = Raise AttributeError ∧
  @settings Sample.urls Fixtures.json Sample.acme
    = Raise (LibraryError "JSONDecodeError").
Proof.
  destruct (@settings_needs_json_object Sample.urls Fixtures.json
              Fixtures.explicit) as (_ & Hlist & _).
  destruct (@settings_needs_json_object Sample.urls Fixtures.json
              Sample.acme) as (Hraise & _).
  split.
  - apply (Hlist (PList [])); [reflexivity | discriminate].
  - apply Hraise. reflexivity.
Defined.

Lemma settings_keys_witness :
  ∃ s, @settings Sample.urls Sample.json Sample.acme = Ok s ∧
       dom s = dom Sample.imported ∪ list_to_set overlay_keys.
Proof.
  eexists. split; [reflexivity|].
  apply (@settings_keys Sample.urls Sample.json Sample.acme);
    reflexivity.
Defined.

Lemma sp_settings_without_routes_witness :
  ∃ overlay, @sp_settings Fixtures.no_urls Sample.acme = Ok overlay ∧
    get_path ["sp"; "assertionConsumerService"; "url"] (PDict overlay)
      = Some (PStr "https://sp.example.org/") ∧
    get_path ["sp"; "singleLogoutService"; "url"] (PDict overlay)
      = Some (PStr "https://sp.example.org/").
Proof.
  destruct (@sp_settings_without_routes Fixtures.no_urls Sample.acme
              (λ _ _, eq_refl)) as (overlay & Hov & Hacs & Hslo & _).
  exists overlay. split; [exact Hov|]. split; [exact Hacs | exact Hslo].
Defined.

(** ** Certificate rotation *)

Section certificate_properties.
Context `{!Crypto}.

(** The columns and rows [generate_certificate] leaves alone. *)
Lemma generate_certificate_columns now w r w' :
  generate_certificate now w = (r, w') →
  same_except_certificate (instance w) (instance w') ∧
  ∀ k, k ≠ pk (instance w) → stored w' !! k = stored w !! k.
Proof.
  unfold generate_certificate. unfold_M.
  repeat (case_match; simpl in *; simplify_eq; try done);
    intros [= <- <-]; simpl;
    (split; [by repeat split|]); intros k Hk; try done.
  by rewrite lookup_insert_ne.
Qed.

(** X5: whatever its outcome, [generate_certificate] changes no column of
    the instance but [private_key], [x509_certificate] and
    [certificate_expires], and no stored row but the one of the IdP. *)
Theorem generate_certificate_frame now w r w' :
  generate_certificate now w = (r, w') →
  same_except_certificate (instance w) (instance w') ∧
  ∀ k, k ≠ pk (instance w) → stored w' !! k = stored w !! k.
Proof. exact (generate_certificate_columns now w r w'). Qed.

(** X6: the certificate of a call that returns is self-signed: subject and
    issuer are the name built from the network location of [base_url], the
    public key is that of the generated 2048-bit key with exponent 65537, the
    signature is made with that key, and the basic constraints are a
    non-critical [CA:true, pathlen:0]. *)
Theorem generate_certificate_self_signed now w w' :
  generate_certificate now w = (Ok tt, w') →
  ∃ netloc cn key cert,
    urlparse_netloc (base_url (instance w)) = Ok netloc ∧
    x509_name netloc = Ok cn ∧
    generate_private_key 65537 2048 = Ok key ∧
    private_bytes key = Ok (private_key (instance w')) ∧
    public_bytes cert = Ok (x509_certificate (instance w')) ∧
    sign (tbs cert) key = Ok (signature cert) ∧
    subject_name (tbs cert) = cn ∧ issuer_name (tbs cert) = cn ∧
    public_key_of (tbs cert) = public_key key ∧
    serial_number (tbs cert) = random_serial_number ∧
    basic_constraints_ca (tbs cert) = true ∧
    basic_constraints_path_length (tbs cert) = Some 0%nat ∧
    basic_constraints_critical (tbs cert) = false.
Proof.
  unfold generate_certificate. unfold_M.
  destruct (urlparse_netloc _) as [netloc|]; simpl; [|done].
  destruct (generate_private_key _ _) as [key|] eqn:Hkey; simpl; [|done].
  destruct (private_bytes key) as [pem|] eqn:Hpem; simpl; [|done].
  destruct (x509_name netloc) as [cn|] eqn:Hcn; simpl; [|done].
  destruct (sign _ key) as [sig|] eqn:Hsig; simpl; [|done].
  destruct (public_bytes _) as [cert_pem|] eqn:Hcert; simpl; [|done].
  intros [= <-]. simpl.
  eexists netloc, cn, key, (mkCertificate _ sig). simpl.
  split; [done|]. split; [done|]. split; [done|]. split; [done|].
  split; [exact Hcert|]. split; [exact Hsig|]. by repeat split.
Qed.

(** X7: [generate_certificate] does not read the key, certificate and
    expiry the instance had: run on two instances that differ in those
    columns only, it gives the same result and the same stored rows, and when
    it returns, the same instance. *)
Theorem generate_certificate_ignores_old_material now a b rows :
  same_except_certificate a b →
  ∃ r wa wb,
    generate_certificate now (mkWorld a rows) = (r, wa) ∧
    generate_certificate now (mkWorld b rows) = (r, wb) ∧
    stored wa = stored wb ∧
    (r = Ok tt → instance wa = instance wb).
Proof.
  intros Hab. destruct a, b. unfold same_except_certificate in Hab.
  simpl in Hab. destruct_and!. subst.
  unfold generate_certificate. unfold_M.
  destruct (urlparse_netloc _) as [netloc|]; simpl;
    [|by eexists _, _, _].
  destruct (generate_private_key _ _) as [key|]; simpl;
    [|by eexists _, _, _].
  destruct (private_bytes key) as [pem|]; simpl;
    [|by eexists _, _, _].
  destruct (x509_name netloc) as [cn|]; simpl;
    [|by eexists _, _, _].
  destruct (sign _ key) as [sig|]; simpl;
    [|by eexists _, _, _].
  destruct (public_bytes _) as [cert_pem|]; simpl;
    by eexists _, _, _.
Qed.

End certificate_properties.

Lemma sample_generate_certificate :
  @generate_certificate (Sample.crypto true) 1000%Z Sample.before
  = (Ok tt,
     (@generate_certificate (Sample.crypto true) 1000%Z Sample.before).2).
Proof. reflexivity. Defined.

Lemma generate_certificate_frame_witness :
  ∃ w', @generate_certificate (Sample.crypto true) 1000%Z Sample.before
          = (Ok tt, w') ∧
        saml_settings (instance w') = "blob" ∧
        stored w' !! 2%nat = None.
Proof.
  eexists. split; [exact sample_generate_certificate|].
  destruct (@generate_certificate_frame (Sample.crypto true) 1000%Z
              Sample.before _ _ sample_generate_certificate) as [Hsame Hrows].
  split.
  - destruct Hsame as (_&_&_&_&_&_&_&_&_&_& Hblob &_). symmetry. exact Hblob.
  - rewrite Hrows; [reflexivity | discriminate].
Defined.

Lemma generate_certificate_self_signed_witness :
  ∃ w' (cert : Certificate string Z),
    @generate_certificate (Sample.crypto true) 1000%Z Sample.before
      = (Ok tt, w') ∧
    subject_name (tbs cert) = issuer_name (tbs cert) ∧
    basic_constraints_ca (tbs cert) = true.
Proof.
  eexists.
  destruct (@generate_certificate_self_signed (Sample.crypto true) 1000%Z
              Sample.before _ sample_generate_certificate)
    as (netloc & cn & key & cert & _ & _ & _ & _ & _ & _ & Hs & Hi & _ & _
        & Hca & _).
  exists cert. split; [exact sample_generate_certificate|].
  split; [exact (eq_trans Hs (eq_sym Hi)) | exact Hca].
Defined.

Lemma sample_same_except_certificate :
  same_except_certificate
    Sample.acme
    (set_private_key "OTHER" (set_x509_certificate "OTHER" Sample.acme)).
Proof. by repeat split. Defined.

Lemma generate_certificate_ignores_old_material_witness :
  ∃ r wa wb,
    @generate_certificate (Sample.crypto true) 1000%Z Sample.before = (r, wa) ∧
    @generate_certificate (Sample.crypto true) 1000%Z
      (mkWorld (set_private_key "OTHER"
                  (set_x509_certificate "OTHER" Sample.acme))
               (stored Sample.before)) = (r, wb) ∧
    stored wa = stored wb ∧
    (r = Ok tt → instance wa = instance wb).
Proof.
  exact (@generate_certificate_ignores_old_material (Sample.crypto true)
           1000%Z _ _ (stored Sample.before) sample_same_except_certificate).
Defined.

(** ** The overlay after rotation and import *)

Section overlay_properties.
Context `{!Urls}.

(** The leaves of the overlay, in terms of the getters and columns. *)
Lemma sp_settings_leaves self overlay :
  sp_settings self = Ok overlay →
  ∃ eid acs slo,
    get_entity_id self = Ok eid ∧ get_acs self = Ok acs ∧
    get_slo self = Ok slo ∧
    get_path ["sp"; "entityId"] (PDict overlay) = Some (PStr eid) ∧
    get_path ["sp"; "assertionConsumerService"; "url"] (PDict overlay)
      = Some (PStr acs) ∧
    get_path ["sp"; "singleLogoutService"; "url"] (PDict overlay)
      = Some (PStr slo) ∧
    get_path ["sp"; "x509cert"] (PDict overlay)
      = Some (PStr (x509_certificate self)) ∧
    get_path ["sp"; "privateKey"] (PDict overlay)
      = Some (PStr (private_key self)) ∧
    get_path ["security"; "metadataValidUntil"] (PDict overlay)
      = Some (opt_datetime (certificate_expires self)) ∧
    get_path ["security"; "wantAttributeStatement"] (PDict overlay)
      = Some (PBool (require_attributes self)) ∧
    get_path ["contactPerson"; "technical"; "givenName"] (PDict overlay)
      = Some (PStr (contact_name self)) ∧
    get_path ["contactPerson"; "technical"; "emailAddress"] (PDict overlay)
      = Some (PStr (contact_email self)).
Proof.
  unfold sp_settings.
  destruct (get_entity_id self) as [eid|]; [|done].
  destruct (get_acs self) as [acs|]; [|done].
  destruct (get_slo self) as [slo|]; [|done].
  simpl. intros [= <-]. exists eid, acs, slo.
  repeat split;
    repeat (first [ rewrite lookup_insert_eq
                  | rewrite lookup_insert_ne by done ]); done.
Qed.

Lemma getters_same_routing a b :
  url_params a = url_params b → base_url a = base_url b →
  entity_id a = entity_id b →
  get_entity_id a = get_entity_id b ∧ get_acs a = get_acs b ∧
  get_slo a = get_slo b.
Proof.
  unfold get_entity_id, get_absolute_url, get_acs, get_slo, get_url.
  by intros -> -> ->.
Qed.

Lemma sp_settings_same_except_metadata a b :
  same_except_metadata a b → sp_settings a = sp_settings b.
Proof.
  intros Hab. destruct a, b. unfold same_except_metadata in Hab.
  simpl in Hab. destruct_and!. by subst.
Qed.

Context `{!Crypto}.

(** X8: after a rotation that returns, the overlay publishes the new
    certificate, the new private key and, as [metadataValidUntil], the new
    expiry [now] plus 3650 days; entity ID, ACS URL, SLO URL and contact are
    the ones from before the rotation. *)
Theorem sp_settings_after_generate_certificate now w w' overlay :
  generate_certificate now w = (Ok tt, w') →
  sp_settings (instance w) = Ok overlay →
  ∃ overlay', sp_settings (instance w') = Ok overlay' ∧
    get_path ["sp"; "x509cert"] (PDict overlay')
      = Some (PStr (x509_certificate (instance w'))) ∧
    get_path ["sp"; "privateKey"] (PDict overlay')
      = Some (PStr (private_key (instance w'))) ∧
    get_path ["security"; "metadataValidUntil"] (PDict overlay')
      = Some (PDateTime (now + timedelta_days 3650)%Z) ∧
    (∀ p, p ∈ [["sp"; "entityId"];
               ["sp"; "assertionConsumerService"; "url"];
               ["sp"; "singleLogoutService"; "url"];
               ["contactPerson"; "technical"; "givenName"];
               ["contactPerson"; "technical"; "emailAddress"]] →
          get_path p (PDict overlay') = get_path p (PDict overlay)).
Proof.
  intros Hgen Hov.
  destruct (generate_certificate_columns _ _ _ _ Hgen) as [Hsame _].
  apply generate_certificate_Ok_inv in Hgen
    as (key & cert & _ & _ & _ & _ & _ & _ & _ & _ & Hexp & _ & _).
  destruct Hsame as (_ & _ & Hparams & Hbase & Heid & Hcn & Hce & _).
  destruct (getters_same_routing _ _ Hparams Hbase Heid) as (Ge & Ga & Gs).
  destruct (sp_settings_leaves _ _ Hov)
    as (eid & acs & slo & He & Ha & Hs & Le & La & Ls & _ & _ & _ & _ & Ln & Lm).
  destruct (sp_settings (instance w')) as [overlay'|e] eqn:Hov'.
  - exists overlay'. split; [done|].
    destruct (sp_settings_leaves _ _ Hov')
      as (eid' & acs' & slo' & He' & Ha' & Hs' & Le' & La' & Ls' & Lc' & Lk'
          & Lv' & _ & Ln' & Lm').
    split; [done|]. split; [done|]. split; [by rewrite Lv', Hexp|].
    intros p Hp. rewrite !elem_of_cons, elem_of_nil in Hp.
    destruct Hp as [->|[->|[->|[->|[->|[]]]]]]; congruence.
  - unfold sp_settings in Hov'. rewrite <- Ge, <- Ga, <- Gs in Hov'.
    by rewrite He, Ha, Hs in Hov'.
Qed.

End overlay_properties.

Lemma sp_settings_after_generate_certificate_witness :
  ∃ w' overlay',
    @generate_certificate (Sample.crypto true) 1000%Z Sample.before
      = (Ok tt, w') ∧
    @sp_settings Sample.urls (instance w') = Ok overlay' ∧
    get_path ["sp"; "x509cert"] (PDict overlay') = Some (PStr "NEW-CERT-PEM") ∧
    get_path ["security"; "metadataValidUntil"] (PDict overlay')
      = Some (PDateTime 315360000001000%Z).
Proof.
  destruct (@sp_settings_after_generate_certificate Sample.urls
              (Sample.crypto true) 1000%Z Sample.before _ _
              sample_generate_certificate eq_refl)
    as (overlay' & Hov' & Hcert & _ & Hvalid & _).
  eexists _, overlay'. split; [exact sample_generate_certificate|].
  split; [exact Hov'|]. split; [exact Hcert | exact Hvalid].
Defined.

(** ** Metadata import *)

Section import_properties.
Context `{!Json} `{!MetadataParser}.

(** What an import that returns has done. *)
Lemma import_metadata_inv now w w' :
  import_metadata now w = (Ok tt, w') →
  (∃ parsed, parse (metadata_xml (instance w')) = Ok parsed ∧
             json_dumps parsed = Ok (saml_settings (instance w'))) ∧
  last_import (instance w') = Some now ∧
  stored w' = <[pk (instance w) := instance w']> (stored w) ∧
  (metadata_url (instance w) = "" →
     metadata_xml (instance w') = metadata_xml (instance w)) ∧
  (metadata_url (instance w) ≠ "" →
     ∃ raw, get_metadata (metadata_url (instance w))
                         (verify_metadata_cert (instance w)) = Ok raw ∧
            decode_utf8 raw = Ok (metadata_xml (instance w'))).
Proof.
  unfold import_metadata. unfold_M.
  destruct (str_truthy (metadata_url (instance w))) eqn:Hurl; simpl.
  - destruct (get_metadata _ _) as [raw|] eqn:Hraw; simpl; [|done].
    destruct (decode_utf8 raw) as [xml|] eqn:Hxml; simpl; [|done].
    destruct (parse xml) as [parsed|] eqn:Hparsed; simpl; [|done].
    destruct (json_dumps parsed) as [dumped|] eqn:Hdumped; simpl; [|done].
    intros [= <-]. simpl. apply str_truthy_true in Hurl.
    repeat split; try done; by eauto.
  - destruct (parse _) as [parsed|] eqn:Hparsed; simpl; [|done].
    destruct (json_dumps parsed) as [dumped|] eqn:Hdumped; simpl; [|done].
    intros [= <-]. simpl. apply str_truthy_false in Hurl.
    repeat split; try done; by eauto.
Qed.

(** X9: after an import that returns, the stored row is the instance, its
    [saml_settings] is the JSON dump of the parse of its [metadata_xml], and
    its [last_import] is the time of the call.  Without a [metadata_url] the
    XML is the one already stored and nothing is fetched; with one it is the
    decoded document that was fetched. *)
Theorem import_metadata_Ok_inv now w w' :
  import_metadata now w = (Ok tt, w') →
  (∃ parsed, parse (metadata_xml (instance w')) = Ok parsed ∧
             json_dumps parsed = Ok (saml_settings (instance w'))) ∧
  last_import (instance w') = Some now ∧
  stored w' = <[pk (instance w) := instance w']> (stored w) ∧
  (metadata_url (instance w) = "" →
     metadata_xml (instance w') = metadata_xml (instance w)) ∧
  (metadata_url (instance w) ≠ "" →
     ∃ raw, get_metadata (metadata_url (instance w))
                         (verify_metadata_cert (instance w)) = Ok raw ∧
            decode_utf8 raw = Ok (metadata_xml (instance w'))).
Proof. exact (import_metadata_inv now w w'). Qed.

(** The columns and rows [import_metadata] leaves alone. *)
Lemma import_metadata_columns now w r w' :
  import_metadata now w = (r, w') →
  same_except_metadata (instance w) (instance w') ∧
  ∀ k, k ≠ pk (instance w) → stored w' !! k = stored w !! k.
Proof.
  unfold import_metadata. unfold_M.
  repeat (case_match; simpl in *; simplify_eq; try done);
    intros [= <- <-]; simpl;
    (split; [by repeat split|]); intros k Hk; try done;
    by rewrite lookup_insert_ne.
Qed.

(** X10: whatever its outcome, [import_metadata] changes no column of the
    instance but [metadata_xml], [saml_settings] and [last_import] (the key
    and the certificate in particular stay), and no stored row but the one
    of the IdP. *)
Theorem import_metadata_frame now w r w' :
  import_metadata now w = (r, w') →
  same_except_metadata (instance w) (instance w') ∧
  ∀ k, k ≠ pk (instance w) → stored w' !! k = stored w !! k.
Proof. exact (import_metadata_columns now w r w'). Qed.

Context `{!Urls}.

(** X11: an import does not change the overlay, and it stores whatever the
    parser returned.  When [json.loads] inverts [json.dumps], [settings] on
    what the parser returns, [settings] on the imported instance is the
    overlay over the parsed metadata if that is an object, and raises
    [AttributeError] if it is not. *)
Theorem settings_after_import_metadata now w w' :
  (∀ xml v s, parse xml = Ok v → json_dumps v = Ok s → json_loads s = Ok v) →
  import_metadata now w = (Ok tt, w') →
  sp_settings (instance w') = sp_settings (instance w) ∧
  ∃ parsed, parse (metadata_xml (instance w')) = Ok parsed ∧
    (∀ d overlay, parsed = PDict d → sp_settings (instance w) = Ok overlay →
       settings (instance w') = Ok (dict_update d overlay)) ∧
    ((∀ d, parsed ≠ PDict d) →
       settings (instance w') = Raise AttributeError).
Proof.
  intros Hjson Himport.
  destruct (import_metadata_columns _ _ _ _ Himport) as [Hsame _].
  apply sp_settings_same_except_metadata in Hsame.
  apply import_metadata_inv in Himport
    as ((parsed & Hparsed & Hdumped) & _).
  apply (Hjson _ _ _ Hparsed) in Hdumped.
  split; [done|]. exists parsed. split; [done|]. split.
  - intros d overlay -> Hov. apply settings_Ok; [done | by rewrite <- Hsame].
  - intros Hnot.
    destruct (settings_cases (instance w')) as (_ & Hattr & _).
    by apply (Hattr parsed).
Qed.

End import_properties.

Lemma sample_import_metadata :
  @import_metadata Fixtures.json Fixtures.metadata 5%Z Sample.before
  = (Ok tt,
     (@import_metadata Fixtures.json Fixtures.metadata 5%Z Sample.before).2).
Proof. reflexivity. Defined.

Lemma import_metadata_Ok_inv_witness :
  ∃ w', @import_metadata Fixtures.json Fixtures.metadata 5%Z Sample.before
          = (Ok tt, w') ∧
        last_import (instance w') = Some 5%Z ∧
        stored w' !! 1%nat = Some (instance w').
Proof.
  destruct (@import_metadata_Ok_inv Fixtures.json Fixtures.metadata 5%Z
              Sample.before _ sample_import_metadata)
    as (_ & Hlast & Hstored & _).
  eexists. split; [exact sample_import_metadata|].
  split; [exact Hlast|]. rewrite Hstored. apply lookup_insert_eq.
Defined.

Lemma import_metadata_frame_witness :
  ∃ w', @import_metadata Sample.json Sample.unparsable 5%Z Sample.before
          = (Raise (LibraryError "XMLSyntaxError"), w') ∧
        private_key (instance w') = "KEY-PEM" ∧
        x509_certificate (instance w') = "CERT-PEM".
Proof.
  eexists. split; [reflexivity|].
  destruct (@import_metadata_frame Sample.json Sample.unparsable 5%Z
              Sample.before _ _ eq_refl) as [Hsame _].
  destruct Hsame as (_&_&_&_&_&_&_& Hcert & Hkey &_).
  split; symmetry; [exact Hkey | exact Hcert].
Defined.

Lemma sample_json_round_trip xml v s :
  @parse Fixtures.metadata xml = Ok v →
  @json_dumps Fixtures.json v = Ok s →
  @json_loads Fixtures.json s = Ok v.
Proof. intros [= <-] [= <-]. reflexivity. Defined.

Lemma settings_after_import_metadata_witness :
  ∃ w' overlay,
    @import_metadata Fixtures.json Fixtures.metadata 5%Z Sample.before
      = (Ok tt, w') ∧
    @sp_settings Sample.urls Sample.acme = Ok overlay ∧
    @settings Sample.urls Fixtures.json (instance w')
      = Ok (dict_update Sample.imported overlay).
Proof.
  destruct (@settings_after_import_metadata Fixtures.json Fixtures.metadata
              Sample.urls 5%Z Sample.before _ sample_json_round_trip
              sample_import_metadata)
    as (_ & parsed & Hparsed & Hobject & _).
  eexists _, _. split; [exact sample_import_metadata|].
  split; [reflexivity|].
  apply Hobject; [|reflexivity].
  vm_compute in Hparsed. by injection Hparsed as <-.
Defined.

(** ** Row order and other IdPs *)

Lemma NoDup_fmap_eq {A B} (f : A → B) (l : list A) x y :
  NoDup (f <$> l) → x ∈ l → y ∈ l → f x = f y → x = y.
Proof.
  induction l as [|a l IH]; [by intros _ ?%elem_of_nil|].
  rewrite fmap_cons, NoDup_cons, !elem_of_cons.
  intros [Ha Hl] [->|Hx] [->|Hy] Hf; try done.
  - destruct Ha. rewrite Hf. by apply list_elem_of_fmap_2.
  - destruct Ha. rewrite <- Hf. by apply list_elem_of_fmap_2.
  - by apply IH.
Qed.

Lemma attr_id_filter_NoDup (P : IdPAttribute → Prop)
    `{!∀ a, Decision (P a)} (tbl : attribute_table) :
  NoDup (attr_id <$> tbl) → NoDup (attr_id <$> filter P tbl).
Proof.
  intros Hnd. eapply sublist_NoDup; [exact Hnd|].
  apply fmap_sublist, sublist_filter.
Qed.

(** With unique primary keys, [first] does not depend on the order of the
    rows. *)
Lemma first_Permutation (qs qs' : list IdPAttribute) :
  NoDup (attr_id <$> qs) → qs ≡ₚ qs' → first qs = first qs'.
Proof.
  intros Hnd Hperm.
  destruct (first qs) as [m|] eqn:Hm, (first qs') as [m'|] eqn:Hm'.
  - apply first_Some in Hm as [Hin Hmin].
    apply first_Some in Hm' as [Hin' Hmin'].
    f_equal. apply (NoDup_fmap_eq attr_id qs); [done..| |].
    + by rewrite Hperm.
    + apply Nat.le_antisymm; [apply Hmin; by rewrite Hperm|].
      apply Hmin'. by rewrite <- Hperm.
  - apply first_None in Hm'. subst qs'.
    apply Permutation_nil_r in Hperm. by subst qs.
  - apply first_None in Hm. subst qs.
    apply Permutation_nil_l in Hperm. by subst qs'.
  - done.
Qed.

(** X12: when primary keys are unique, as they are in every reachable
    table, [get_nameid] does not depend on the order in which the database
    returns the rows: [first] orders by primary key. *)
Theorem get_nameid_row_order self (tbl tbl' : attribute_table) s :
  NoDup (attr_id <$> tbl) → tbl ≡ₚ tbl' →
  get_nameid self tbl s = get_nameid self tbl' s.
Proof.
  intros Hnd Hperm. unfold get_nameid, nameid_attr.
  rewrite (first_Permutation
             (filter_is_nameid true (attributes self tbl))
             (filter_is_nameid true (attributes self tbl'))); [done| |].
  - unfold filter_is_nameid, attributes.
    by do 2 apply attr_id_filter_NoDup.
  - unfold filter_is_nameid, attributes. by rewrite Hperm.
Qed.

(** X13: the mappings of other IdPs have no influence: a row whose [idp]
    is not the primary key of [self] can be added to the table anywhere
    without changing [mapped_attributes] or [get_nameid] of [self]. *)
Theorem other_idp_mappings_ignored self (l1 l2 : attribute_table) r s :
  idp r ≠ pk self →
  mapped_attributes self (l1 ++ r :: l2) s = mapped_attributes self (l1 ++ l2) s ∧
  get_nameid self (l1 ++ r :: l2) s = get_nameid self (l1 ++ l2) s.
Proof.
  intros Hr.
  assert (attributes self (l1 ++ r :: l2) = attributes self (l1 ++ l2)) as Heq.
  { unfold attributes. by rewrite !filter_app, filter_cons_False. }
  unfold mapped_attributes, get_nameid, nameid_attr. by rewrite Heq.
Qed.

(** ** Mapped attributes without collisions *)

Lemma od_set_fresh {V} (d : OrderedDict V) k v :
  k ∉ od_keys d → od_set d k v = d ++ [(k, v)].
Proof.
  unfold od_keys. induction d as [|[k0 v0] d IH]; simpl; [done|].
  rewrite not_elem_of_cons. intros [Hne Hd].
  rewrite decide_False by done. by rewrite IH.
Qed.

Lemma foldl_step_distinct s (l : list IdPAttribute) d :
  NoDup (mapped_name <$> l) →
  (∀ a, a ∈ l → mapped_name a ∉ od_keys d) →
  foldl (mapped_attributes_step s) d l
  = d ++ omap (λ a, (mapped_name a,.) <$>
                     saml.get_attribute s (saml_attribute a)) l.
Proof.
  revert d. induction l as [|a l IH]; intros d.
  - intros _ _. simpl. by rewrite app_nil_r.
  - rewrite fmap_cons, NoDup_cons. intros [Ha Hl] Hd. simpl.
    unfold mapped_attributes_step at 2.
    destruct (saml.get_attribute s (saml_attribute a)) as [v|]; simpl.
    + rewrite od_set_fresh by (apply Hd; by left).
      rewrite IH; [by rewrite <- app_assoc | done |].
      intros b Hb. unfold od_keys. rewrite fmap_app, elem_of_app.
      intros [Hin|Hin%list_elem_of_singleton].
      * by apply (Hd b); [right|].
      * apply Ha. simpl in Hin. rewrite <- Hin. by apply list_elem_of_fmap_2.
    + apply IH; [done|]. intros b Hb. apply Hd. by right.
Qed.

(** X14: when the mapped names of the IdP's mappings are pairwise
    different, [mapped_attributes] is the list, in queryset order, of the
    pairs of mapped name and value of the mappings whose attribute the
    assertion has: nothing is overwritten and the order of the mappings is
    the order of the keys. *)
Theorem mapped_attributes_distinct_names self tbl s :
  NoDup (mapped_name <$> exclude_mapped_name "" (attributes self tbl)) →
  mapped_attributes self tbl s
  = omap (λ a, (mapped_name a,.) <$> saml.get_attribute s (saml_attribute a))
         (exclude_mapped_name "" (attributes self tbl)).
Proof.
  intros Hnd. unfold mapped_attributes.
  rewrite foldl_step_distinct; [done..|].
  intros a _. apply not_elem_of_nil.
Qed.

(** X15: with a flagged mapping selected, [get_nameid] returns the first
    value of the list the assertion has for it, raises [IndexError] when that
    list is empty, and never looks at the NameID the toolkit computed. *)
Theorem get_nameid_first_value self tbl s m :
  nameid_attr self tbl = Some m →
  (∀ x rest, saml.get_attribute s (saml_attribute m) = Some (x :: rest) →
             get_nameid self tbl s = Ok (Some x)) ∧
  (saml.get_attribute s (saml_attribute m) = Some [] →
   get_nameid self tbl s = Raise IndexError) ∧
  (∀ n, get_nameid self tbl (saml.mk (saml.get_attribute s) n)
        = get_nameid self tbl s).
Proof.
  intros Hm. unfold get_nameid. rewrite Hm. split; [|split].
  - by intros x rest ->.
  - by intros ->.
  - done.
Qed.

Lemma get_nameid_row_order_witness :
  get_nameid Sample.acme [Sample.email_attr; Sample.uid_attr] Sample.assertion
  = Ok (Some "u-17").
Proof.
  rewrite <- (get_nameid_row_order Sample.acme Sample.two_flagged
                [Sample.email_attr; Sample.uid_attr] Sample.assertion).
  - reflexivity.
  - apply (bool_decide_unpack _). reflexivity.
  - apply Permutation_swap.
Defined.

Lemma other_idp_mappings_ignored_witness :
  get_nameid Sample.acme [Fixtures.other_idp_attr; Sample.email_attr]
             Sample.assertion
  = Ok (Some "a@x.com").
Proof.
  destruct (other_idp_mappings_ignored Sample.acme [] [Sample.email_attr]
              Fixtures.other_idp_attr Sample.assertion) as [_ H];
    [discriminate|].
  simpl in H. rewrite H. reflexivity.
Defined.

Lemma mapped_attributes_distinct_names_witness :
  mapped_attributes Sample.acme Fixtures.distinct_names Sample.assertion
  = [("username", ["u-17"]); ("email", ["a@x.com"])].
Proof.
  rewrite mapped_attributes_distinct_names.
  - reflexivity.
  - apply (bool_decide_unpack _). reflexivity.
Defined.

Lemma get_nameid_first_value_witness :
  get_nameid Sample.acme Sample.two_flagged Sample.assertion = Ok (Some "u-17").
Proof.
  destruct (get_nameid_first_value Sample.acme Sample.two_flagged
              Sample.assertion Sample.uid_attr eq_refl) as (H & _).
  by apply (H "u-17" []).
Defined.

(** ** Writing attribute mappings *)

Lemma violates_unique_together_true tbl r :
  violates_unique_together tbl r = true ↔
  ∃ r0, r0 ∈ tbl ∧ idp r0 = idp r ∧ saml_attribute r0 = saml_attribute r ∧
        attr_id r0 ≠ attr_id r.
Proof.
  unfold violates_unique_together.
  rewrite bool_decide_eq_true, Exists_exists. done.
Qed.


(** X17: editing is refused only for the declared pair.  In a table that
    satisfies the constraint, saving a row under its own primary key with the
    same [idp] and [saml_attribute] always succeeds, so any change of
    [mapped_name], [is_nameid] or [always_update] is accepted; saving it with
    the pair of another row raises [IntegrityError]. *)
Theorem attr_save_spec tbl r r' :
  table_invariant tbl → r ∈ tbl → attr_id r' = attr_id r →
  (idp r' = idp r → saml_attribute r' = saml_attribute r →
   attr_save tbl r'
   = Ok ((λ x, if decide (attr_id x = attr_id r') then r' else x) <$> tbl)) ∧
  (∀ x, x ∈ tbl → attr_id x ≠ attr_id r →
        idp r' = idp x → saml_attribute r' = saml_attribute x →
        attr_save tbl r' = Raise IntegrityError).
Proof.
  intros [Hpk Huniq] Hin Hid. unfold attr_save. split.
  - intros Hidp Hname.
    destruct (violates_unique_together tbl r') eqn:Hv.
    + apply violates_unique_together_true in Hv
        as (r0 & Hin0 & Hidp0 & Hname0 & Hne).
      destruct Hne. rewrite Hid. apply Huniq; [done..| |]; congruence.
    + rewrite bool_decide_eq_true_2; [done|].
      rewrite Hid. by apply list_elem_of_fmap_2.
  - intros x Hx Hne Hidp Hname.
    assert (violates_unique_together tbl r' = true) as ->; [|done].
    apply violates_unique_together_true. exists x.
    repeat split; [done|done|done|congruence].
Qed.


Lemma two_flagged_invariant : table_invariant Sample.two_flagged.
Proof. apply reachable_invariant, two_flagged_reachable. Defined.

Lemma attr_save_spec_witness :
  attr_save Sample.two_flagged (mkIdPAttribute 2 1 "email" "" true true)
    = Ok [Sample.uid_attr; mkIdPAttribute 2 1 "email" "" true true] ∧
  attr_save Sample.two_flagged (mkIdPAttribute 2 1 "uid" "email" true false)
    = Raise IntegrityError.
Proof.
  assert (Hin : Sample.email_attr ∈ Sample.two_flagged)
    by (unfold Sample.two_flagged; by right; left).
  split.
  - destruct (attr_save_spec Sample.two_flagged Sample.email_attr
                (mkIdPAttribute 2 1 "email" "" true true)
                two_flagged_invariant Hin eq_refl) as [H _].
    by rewrite H.
  - destruct (attr_save_spec Sample.two_flagged Sample.email_attr
                (mkIdPAttribute 2 1 "uid" "email" true false)
                two_flagged_invariant Hin eq_refl) as [_ H].
    apply (H Sample.uid_attr); [|discriminate|done|done].
    unfold Sample.two_flagged. by left.
Defined.

(** ** Federated identities *)

Lemma users_fresh_pk_gt (tbl : list users.t) r :
  r ∈ tbl → (users.pk r < users.fresh_pk tbl)%nat.
Proof.
  unfold users.fresh_pk. induction tbl as [|r0 tbl IH].
  - by intros ?%elem_of_nil.
  - rewrite fmap_cons. simpl.
    intros [->|Hin]%elem_of_cons; [|specialize (IH Hin)];
      apply Nat.lt_succ_r.
    + apply Nat.le_max_l.
    + etrans; [|apply Nat.le_max_r]. by apply Nat.lt_succ_r.
Qed.

Lemma users_violates_true tbl r :
  users.violates_unique_together tbl r = true ↔
  (∃ r0, r0 ∈ tbl ∧ users.idp r0 = users.idp r ∧
         users.nameid r0 = users.nameid r ∧ users.pk r0 ≠ users.pk r) ∨
  (∃ r0, r0 ∈ tbl ∧ users.idp r0 = users.idp r ∧
         users.content_type r0 = users.content_type r ∧
         users.user_id r0 = users.user_id r ∧ users.pk r0 ≠ users.pk r).
Proof.
  unfold users.violates_unique_together.
  rewrite orb_true_iff, !bool_decide_eq_true, !Exists_exists. done.
Qed.

Lemma users_violates_false tbl r :
  users.violates_unique_together tbl r = false →
  (∀ r0, r0 ∈ tbl → users.idp r0 = users.idp r →
         users.nameid r0 = users.nameid r → users.pk r0 = users.pk r) ∧
  (∀ r0, r0 ∈ tbl → users.idp r0 = users.idp r →
         users.content_type r0 = users.content_type r →
         users.user_id r0 = users.user_id r → users.pk r0 = users.pk r).
Proof.
  intros Hv. split; intros r0 Hin; intros;
    destruct (decide (users.pk r0 = users.pk r)) as [|Hne]; try done;
    assert (users.violates_unique_together tbl r = true) as Ht;
    try congruence; apply users_violates_true;
    [left | right]; exists r0; by repeat split.
Qed.


Lemma users_invariant_insert tbl r :
  users.invariant tbl →
  users.pk r ∉ users.pk <$> tbl →
  users.violates_unique_together tbl r = false →
  users.invariant (tbl ++ [r]).
Proof.
  intros (Hpk & Hn & Hu) Hfresh [Hvn Hvu]%users_violates_false.
  split; [|split].
  - rewrite fmap_app. apply NoDup_app. split; [done|]. split.
    + intros x Hx. simpl. rewrite list_elem_of_singleton. by intros ->.
    + apply NoDup_singleton.
  - intros r1 r2. rewrite !elem_of_app, !list_elem_of_singleton.
    intros [H1| ->] [H2| ->] Hidp Hname.
    + by apply Hn.
    + by apply Hvn.
    + symmetry. by apply Hvn.
    + done.
  - intros r1 r2. rewrite !elem_of_app, !list_elem_of_singleton.
    intros [H1| ->] [H2| ->] Hidp Hct Huid.
    + by apply Hu.
    + by apply Hvu.
    + symmetry. by apply Hvu.
    + done.
Qed.

Lemma users_invariant_update tbl r :
  users.invariant tbl →
  users.violates_unique_together tbl r = false →
  users.invariant
    ((λ r', if decide (users.pk r' = users.pk r) then r else r') <$> tbl).
Proof.
  intros (Hpk & Hn & Hu) [Hvn Hvu]%users_violates_false.
  split; [|split].
  - rewrite <- list_fmap_compose.
    rewrite (list_fmap_ext _ users.pk tbl); [done|].
    intros ? r' _. simpl. by destruct (decide (users.pk r' = users.pk r)).
  - intros r1 r2. rewrite !list_elem_of_fmap.
    intros (x1 & -> & H1) (x2 & -> & H2).
    destruct (decide (users.pk x1 = users.pk r)),
             (decide (users.pk x2 = users.pk r)); intros Hidp Hname.
    + done.
    + symmetry. by apply Hvn.
    + by apply Hvn.
    + by apply Hn.
  - intros r1 r2. rewrite !list_elem_of_fmap.
    intros (x1 & -> & H1) (x2 & -> & H2).
    destruct (decide (users.pk x1 = users.pk r)),
             (decide (users.pk x2 = users.pk r)); intros Hidp Hct Huid.
    + done.
    + symmetry. by apply Hvu.
    + by apply Hvu.
    + by apply Hu.
Qed.

Lemma users_invariant_delete tbl i :
  users.invariant tbl → users.invariant (users.delete tbl i).
Proof.
  unfold users.delete. intros (Hpk & Hn & Hu). split; [|split].
  - eapply sublist_NoDup; [exact Hpk|]. apply fmap_sublist, sublist_filter.
  - intros r1 r2. rewrite !list_elem_of_filter.
    intros [_ H1] [_ H2]. by apply Hn.
  - intros r1 r2. rewrite !list_elem_of_filter.
    intros [_ H1] [_ H2]. by apply Hu.
Qed.

Lemma users_step_invariant tbl tbl' :
  users.step tbl tbl' → users.invariant tbl → users.invariant tbl'.
Proof.
  intros Hstep Hinv. destruct Hstep as [tbl r tbl' H|tbl r tbl' H|tbl i].
  - unfold users.create in H.
    destruct (users.violates_unique_together _ _) eqn:Hv; [done|].
    injection H as <-. apply users_invariant_insert; [done| |done].
    intros (r0 & Heq & Hin%users_fresh_pk_gt)%list_elem_of_fmap.
    simpl in Heq. lia.
  - unfold users.save in H.
    destruct (users.violates_unique_together _ _) eqn:Hv; [done|].
    case_bool_decide as Hin; injection H as <-.
    + by apply users_invariant_update.
    + by apply users_invariant_insert.
  - by apply users_invariant_delete.
Qed.

Lemma users_reachable_invariant tbl :
  users.reachable tbl → users.invariant tbl.
Proof.
  unfold users.reachable. revert tbl. apply rtc_ind_r.
  - split; [apply NoDup_nil_2|]. split; by intros r1 r2 ?%elem_of_nil.
  - intros tbl tbl' _ Hstep IH. by eapply users_step_invariant.
Qed.

(** X19: in every table that creating, saving and deleting federated
    identities can produce, the rows of one IdP pair NameIDs and local users
    one to one: two rows of an IdP with the same NameID, or with the same
    local user, are the same row. *)
Theorem users_one_to_one tbl r1 r2 :
  users.reachable tbl → r1 ∈ tbl → r2 ∈ tbl →
  users.idp r1 = users.idp r2 →
  (users.nameid r1 = users.nameid r2 → r1 = r2) ∧
  (users.content_type r1 = users.content_type r2 →
   users.user_id r1 = users.user_id r2 → r1 = r2).
Proof.
  intros (Hpk & Hn & Hu)%users_reachable_invariant H1 H2 Hidp. split.
  - intros Hname. apply (NoDup_fmap_eq users.pk tbl); [done..|].
    by apply Hn.
  - intros Hct Huid. apply (NoDup_fmap_eq users.pk tbl); [done..|].
    by apply Hu.
Qed.


Lemma alice_bob_reachable :
  users.reachable [Fixtures.alice; users.mk 2 1 "bob@idp" 4 "18"].
Proof.
  unfold users.reachable.
  eapply rtc_l; [apply (users.step_create [] Fixtures.alice); reflexivity|].
  eapply rtc_l; [apply (users.step_create _ Fixtures.bob); reflexivity|].
  apply rtc_refl.
Defined.

Lemma users_one_to_one_witness :
  (users.nameid Fixtures.alice = users.nameid Fixtures.alice →
   Fixtures.alice = Fixtures.alice) ∧
  (users.content_type Fixtures.alice = users.content_type Fixtures.alice →
   users.user_id Fixtures.alice = users.user_id Fixtures.alice →
   Fixtures.alice = Fixtures.alice).
Proof.
  apply (users_one_to_one _ _ _ alice_bob_reachable);
    [by left | by left | reflexivity].
Defined.

(** ** Deleting an IdP *)

Lemma attributes_after_delete self i (tbl : attribute_table) :
  attributes self (filter (λ a, idp a ≠ i) tbl)
  = if decide (pk self = i) then [] else attributes self tbl.
Proof.
  unfold attributes. induction tbl as [|a tbl IH]; [by case_decide|].
  rewrite (filter_cons (λ a, idp a ≠ i)).
  destruct (decide (idp a ≠ i)) as [Hne|Heq%dec_stable].
  - rewrite !filter_cons. rewrite IH.
    destruct (decide (idp a = pk self)) as [Ha|]; repeat case_decide;
      congruence.
  - rewrite IH. case_decide; [done|].
    rewrite filter_cons_False; [done | congruence].
Qed.

(** X20: deleting an IdP keeps referential integrity.  Afterwards the IdP
    row is gone together with every mapping, default value and federated
    identity that referred to it, so the deleted IdP has no mappings left;
    the rows of the other IdPs, and what [attributes] returns for them, are
    unchanged. *)
Theorem idp_delete_cascade i db :
  referential_integrity db →
  referential_integrity (idp_delete i db) ∧
  idp_rows (idp_delete i db) !! i = None ∧
  (∀ k, k ≠ i → idp_rows (idp_delete i db) !! k = idp_rows db !! k) ∧
  (∀ self, pk self = i →
           attributes self (attribute_rows (idp_delete i db)) = []) ∧
  (∀ self, pk self ≠ i →
           attributes self (attribute_rows (idp_delete i db))
           = attributes self (attribute_rows db)) ∧
  (∀ d, d ∈ default_rows (idp_delete i db) ↔
        d ∈ default_rows db ∧ default_idp d ≠ i) ∧
  (∀ u, u ∈ user_rows (idp_delete i db) ↔
        u ∈ user_rows db ∧ users.idp u ≠ i).
Proof.
  intros (Ha & Hd & Hu). unfold idp_delete. simpl.
  split; [|split; [|split; [|split; [|split; [|split]]]]].
  - split; [|split]; simpl.
    + intros a [Hne Hin]%list_elem_of_filter.
      rewrite lookup_delete_ne by done. by apply Ha.
    + intros d [Hne Hin]%list_elem_of_filter.
      rewrite lookup_delete_ne by done. by apply Hd.
    + intros u [Hne Hin]%list_elem_of_filter.
      rewrite lookup_delete_ne by done. by apply Hu.
  - apply lookup_delete_eq.
  - intros k Hk. by apply lookup_delete_ne.
  - intros self Hself. rewrite attributes_after_delete.
    by rewrite decide_True.
  - intros self Hself. rewrite attributes_after_delete.
    by rewrite decide_False.
  - intros d. rewrite list_elem_of_filter. tauto.
  - intros u. rewrite list_elem_of_filter. tauto.
Qed.

Lemma sample_referential_integrity : referential_integrity Fixtures.db.
Proof.
  unfold referential_integrity, Fixtures.db. simpl. split; [|split].
  - intros a Ha. rewrite !elem_of_cons, elem_of_nil in Ha.
    destruct Ha as [->|[->|[]]]; by eexists.
  - intros d ->%list_elem_of_singleton. by eexists.
  - intros u ->%list_elem_of_singleton. by eexists.
Defined.

Lemma idp_delete_cascade_witness :
  attribute_rows (idp_delete 1 Fixtures.db) = [Fixtures.other_idp_attr] ∧
  attributes Sample.acme (attribute_rows (idp_delete 1 Fixtures.db)) = [] ∧
  referential_integrity (idp_delete 1 Fixtures.db).
Proof.
  destruct (idp_delete_cascade 1 Fixtures.db sample_referential_integrity)
    as (Hri & _ & _ & Hgone & _).
  split; [reflexivity|]. split; [by apply Hgone | exact Hri].
Defined.

(** ** Strategies *)

Section strategy_properties.
Context `{!SpSettings} `{!Loader}.

(** X21: [prepare_request], [authenticate], [login] and [logout] call the
    strategy the IdP's own column names when that is not blank, whatever the
    project's setting; with a blank column they call the strategy the
    setting names when the project defines it, and that value is handed to
    [import_string] even when it is [None]; with a blank column and no
    setting they call the built-in default. *)
Theorem strategy_precedence self m request user s :
  (prepare_request_method m ≠ "" →
   prepare_request self m request
   = import_string (Some (prepare_request_method m))
     ≫= (λ f, f [request; idp_obj self m])) ∧
  (∀ v, prepare_request_method m = "" → SP_PREPARE_REQUEST = Some v →
   prepare_request self m request
   = import_string v ≫= (λ f, f [request; idp_obj self m])) ∧
  (prepare_request_method m = "" → SP_PREPARE_REQUEST = None →
   prepare_request self m request
   = import_string (Some "sp.utils.prepare_request")
     ≫= (λ f, f [request; idp_obj self m])) ∧
  (authenticate_method m ≠ "" →
   authenticate self m request s
   = import_string (Some (authenticate_method m))
     ≫= (λ f, f [request; idp_obj self m; saml_obj s])) ∧
  (∀ v, authenticate_method m = "" → SP_AUTHENTICATE = Some v →
   authenticate self m request s
   = import_string v ≫= (λ f, f [request; idp_obj self m; saml_obj s])) ∧
  (authenticate_method m = "" → SP_AUTHENTICATE = None →
   authenticate self m request s
   = import_string (Some "sp.utils.authenticate")
     ≫= (λ f, f [request; idp_obj self m; saml_obj s])) ∧
  (login_method m ≠ "" →
   login self m request user s
   = import_string (Some (login_method m))
     ≫= (λ f, f [request; user; idp_obj self m; saml_obj s])) ∧
  (∀ v, login_method m = "" → SP_LOGIN = Some v →
   login self m request user s
   = import_string v
     ≫= (λ f, f [request; user; idp_obj self m; saml_obj s])) ∧
  (login_method m = "" → SP_LOGIN = None →
   login self m request user s
   = import_string (Some "sp.utils.login")
     ≫= (λ f, f [request; user; idp_obj self m; saml_obj s])) ∧
  (logout_method m ≠ "" →
   logout self m request
   = import_string (Some (logout_method m))
     ≫= (λ f, f [request; idp_obj self m])) ∧
  (∀ v, logout_method m = "" → SP_LOGOUT = Some v →
   logout self m request
   = import_string v ≫= (λ f, f [request; idp_obj self m])) ∧
  (logout_method m = "" → SP_LOGOUT = None →
   logout self m request
   = import_string (Some "sp.utils.logout")
     ≫= (λ f, f [request; idp_obj self m])).
Proof.
  unfold prepare_request, authenticate, login, logout.
  repeat split;
    first [ intros Hm%str_truthy_true; by rewrite py_or_truthy
          | intros v -> ->; by rewrite py_or_falsy
          | intros -> ->; by rewrite py_or_falsy ].
Qed.

(** X22: [update_user] is the one strategy that can be switched off: with
    a blank column and the setting [SP_UPDATE_USER] set to [None] or to the
    empty string it returns the user it was given and imports nothing.  In
    every other case it calls the strategy named by the column, the setting
    or the default, with [created] as last argument. *)
Theorem update_user_switch self m request s user created :
  (update_user_method m = "" →
   SP_UPDATE_USER = Some None ∨ SP_UPDATE_USER = Some (Some "") →
   update_user self m request s user created = Ok user) ∧
  (update_user_method m ≠ "" →
   update_user self m request s user created
   = import_string (Some (update_user_method m))
     ≫= (λ f, f [request; idp_obj self m; saml_obj s; user;
                 created_obj created])) ∧
  (update_user_method m = "" → SP_UPDATE_USER = None →
   update_user self m request s user created
   = import_string (Some "sp.utils.update_user")
     ≫= (λ f, f [request; idp_obj self m; saml_obj s; user;
                 created_obj created])) ∧
  (∀ path, update_user_method m = "" → path ≠ "" →
   SP_UPDATE_USER = Some (Some path) →
   update_user self m request s user created
   = import_string (Some path)
     ≫= (λ f, f [request; idp_obj self m; saml_obj s; user;
                 created_obj created])).
Proof.
  unfold update_user, py_or, getattr. simpl. split; [|split; [|split]].
  - by intros -> [-> | ->].
  - intros Hm%str_truthy_true. rewrite Hm. simpl. by rewrite Hm.
  - by intros -> ->.
  - intros path -> Hpath%str_truthy_true ->. simpl. by rewrite Hpath.
Qed.

End strategy_properties.

Lemma strategy_precedence_witness :
  @login Fixtures.sp_settings_none Fixtures.loader Sample.acme
     Fixtures.methods "request" "user" Sample.assertion
  = Ok "project.saml.login" ∧
  @authenticate Fixtures.sp_settings_none Fixtures.loader Sample.acme
     Fixtures.methods "request" Sample.assertion
  = Ok "project.saml.authenticate" ∧
  @logout Fixtures.sp_settings_none Fixtures.loader Sample.acme
     Fixtures.methods "request"
  = Ok "sp.utils.logout".
Proof.
  destruct (@strategy_precedence Fixtures.sp_settings_none Fixtures.loader
              Sample.acme Fixtures.methods "request" "user" Sample.assertion)
    as (_ & _ & _ & _ & Hauth & _ & Hlogin & _ & _ & _ & _ & Hlogout).
  split; [|split].
  - rewrite Hlogin; [reflexivity | discriminate].
  - rewrite (Hauth (Some "project.saml.authenticate")); reflexivity.
  - rewrite Hlogout; reflexivity.
Defined.

Lemma update_user_switch_witness :
  @update_user Fixtures.sp_settings_none Fixtures.loader Sample.acme
     Fixtures.methods "request" Sample.assertion "user" (Some true)
  = Ok "user".
Proof.
  destruct (@update_user_switch Fixtures.sp_settings_none Fixtures.loader
              Sample.acme Fixtures.methods "request" Sample.assertion "user"
              (Some true)) as (Hoff & _).
  apply Hoff; [reflexivity | by left].
Defined.
